(** * merlin/server/server_util.py: configuration store and user registry

    A shallow embedding of [merlin.server.server_util]: the validators
    [valid_ipv4] and [valid_port], the class [RedisConfig] (the redis.conf
    editor) and the class [RedisUsers] (the redis.users registry and its
    push to a running server).

    Conventions of the embedding.
    - A Python [str] is a [string]; a character is a code point below 256
      (the Latin-1 range), which covers every character the source tests
      for.  A file holds its characters as they are stored; reading in
      text mode turns every line ending into a newline, and writing is
      on a system whose line separator is the newline.
    - An [int] is a [Z].  CPython refuses to convert between [int] and
      [str] beyond 4300 digits: [int(s)] is modelled with this limit, and
      the properties that pass an integer to [str] say that it is within
      it.
    - A Python exception is a constructor of [exn]; code that can raise
      returns a [result].
    - Class attributes that the source mutates in place
      ([RedisConfig.entry_order], [RedisUsers.users]) live in the state of
      a small state-and-exception monad, next to the files; instance
      attributes live in the record of the instance.
    - A dict that is only looked up is a [gmap]; a dict that the source
      iterates over ([RedisUsers.users]) is an insertion-ordered
      association list.
    - Calls to the logger leave no trace in the model. *)

From Stdlib Require Import ZArith Ascii String List DecimalString Lia.
From stdpp Require Import base option list strings gmap sorting.

Local Open Scope string_scope.
Local Open Scope Z_scope.

(** ** Python builtins *)

Module Py.

(** Exceptions the modelled code can raise. *)
Inductive exn : Type :=
| IndexError
| KeyError (key : string)
| ValueError
| TypeError
| FileNotFoundError (path : string).

Inductive result (A : Type) : Type :=
| Ok (a : A)
| Raise (e : exn).
Arguments Ok {A} a.
Arguments Raise {A} e.

(** The values the setters of [RedisConfig] receive and store. *)
Inductive value : Type :=
| VNone
| VInt (z : Z)
| VStr (s : string).

#[global] Instance value_eq_dec : EqDecision value.
Proof. solve_decision. Defined.

#[global] Instance exn_eq_dec : EqDecision exn.
Proof. solve_decision. Defined.

(** The number of digits up to which CPython converts between [int] and
    [str] ([sys.int_info.default_max_str_digits]). *)
Definition int_max_str_digits : Z := 4300.

(** An integer that [str] renders: at most 4300 digits. *)
Definition within_str_limit (n : Z) : bool :=
  Z.abs n <? 10 ^ int_max_str_digits.

(** [str(v)], as the f-string of [RedisConfig.write] formats a value; for
    an integer, the decimal digits that [str] returns when the integer is
    [within_str_limit] (beyond it, [str] raises [ValueError]). *)
Definition str (v : value) : string :=
  match v with
  | VNone => "None"
  | VInt z => NilZero.string_of_int (Z.to_int z)
  | VStr s => s
  end.

(** [str.isspace] on one character: the characters [str.split()] cuts at. *)
Definition isspace (c : ascii) : bool :=
  let n := nat_of_ascii c in
  ((9 <=? n) && (n <=? 13) || (28 <=? n) && (n <=? 32)
   || (n =? 133) || (n =? 160))%nat.

(** Drop leading whitespace. *)
Fixpoint lstrip (s : string) : string :=
  match s with
  | String c s' => if isspace c then lstrip s' else s
  | EmptyString => EmptyString
  end.

(** The longest whitespace-free prefix of [s], and what follows it. *)
Fixpoint span_token (s : string) : string * string :=
  match s with
  | String c s' =>
      if isspace c then (EmptyString, s)
      else let (t, r) := span_token s' in (String c t, r)
  | EmptyString => (EmptyString, EmptyString)
  end.

(** [s.split(maxsplit=1)]: at most one cut, at the first run of whitespace
    that follows the first word; leading whitespace is dropped, the
    remainder keeps its trailing whitespace, an empty remainder is not
    listed. *)
Definition split_maxsplit1 (s : string) : list string :=
  match lstrip s with
  | EmptyString => []
  | s1 =>
      let (tok, r) := span_token s1 in
      match lstrip r with
      | EmptyString => [tok]
      | rest => [tok; rest]
      end
  end.

(** [s.split(sep)] for a one-character separator. *)
Fixpoint split (sep : ascii) (s : string) : list string :=
  match s with
  | EmptyString => [EmptyString]
  | String c s' =>
      if Ascii.eqb c sep then EmptyString :: split sep s'
      else match split sep s' with
           | hd :: tl => String c hd :: tl
           | [] => [String c EmptyString]
           end
  end.

(** [s[:-1]]. *)
Fixpoint drop_last (s : string) : string :=
  match s with
  | EmptyString => EmptyString
  | String c EmptyString => EmptyString
  | String c s' => String c (drop_last s')
  end.

(** [l[i]] on a list. *)
Definition item {A : Type} (l : list A) (i : nat) : result A :=
  match l !! i with
  | Some x => Ok x
  | None => Raise IndexError
  end.

(** [s.strip()]. *)
Definition strip (s : string) : string :=
  String.rev (lstrip (String.rev (lstrip s))).

Definition digit_of (c : ascii) : option Z :=
  let n := nat_of_ascii c in
  if ((48 <=? n) && (n <=? 57))%nat then Some (Z.of_nat n - 48) else None.

(** The digits of an [int(...)] literal: decimal digits, single underscores
    only between two digits. *)
Fixpoint int_digits (s : string) (acc : Z) (after_digit : bool) : option Z :=
  match s with
  | EmptyString => if after_digit then Some acc else None
  | String c s' =>
      match digit_of c with
      | Some d => int_digits s' (10 * acc + d) true
      | None =>
          if Ascii.eqb c "_" && after_digit then int_digits s' acc false
          else None
      end
  end.

(** The whitespace of C's [isspace], which is what [int] skips. *)
Definition c_isspace (c : ascii) : bool :=
  let n := nat_of_ascii c in
  ((9 <=? n) && (n <=? 13) || (n =? 32))%nat.

Fixpoint c_lstrip (s : string) : string :=
  match s with
  | String c s' => if c_isspace c then c_lstrip s' else s
  | EmptyString => EmptyString
  end.

Definition c_strip (s : string) : string :=
  String.rev (c_lstrip (String.rev (c_lstrip s))).

(** What [int] does to a [str] before it reads it: a character from
    U+007F on that is whitespace becomes a space (the others stay, and
    are no digits). *)
Fixpoint spaces_to_ascii (s : string) : string :=
  match s with
  | EmptyString => EmptyString
  | String c s' =>
      String (if (127 <=? nat_of_ascii c)%nat && isspace c then " "%char else c)
             (spaces_to_ascii s')
  end.

Fixpoint count_digits (s : string) : Z :=
  match s with
  | EmptyString => 0
  | String c s' =>
      (match digit_of c with Some _ => 1 | None => 0 end) + count_digits s'
  end.

(** [int(s)] for a [str]: surrounding whitespace is ignored, one sign is
    allowed, at most 4300 digits; anything else raises [ValueError]. *)
Definition int (s : string) : result Z :=
  let text := c_strip (spaces_to_ascii s) in
  let body :=
    match text with
    | String "-" d => option_map Z.opp (int_digits d 0 false)
    | String "+" d => int_digits d 0 false
    | d => int_digits d 0 false
    end in
  match body with
  | Some z =>
      if count_digits text <=? int_max_str_digits then Ok z else Raise ValueError
  | None => Raise ValueError
  end.

(** [s.split()]: the words of [s], cut at runs of whitespace. *)
Fixpoint split_ws (s : string) : list string :=
  match s with
  | EmptyString => []
  | String c s' =>
      if isspace c then split_ws s'
      else
        match s' with
        | EmptyString => [String c EmptyString]
        | String c' _ =>
            if isspace c' then String c EmptyString :: split_ws s'
            else match split_ws s' with
                 | w :: ws => String c w :: ws
                 | [] => [String c EmptyString]
                 end
        end
  end.

(** [sep.join(l)]. *)
Fixpoint join (sep : string) (l : list string) : string :=
  match l with
  | [] => EmptyString
  | [x] => x
  | x :: rest => x ++ sep ++ join sep rest
  end.

(** The methods below can also raise [AttributeError]. *)
Inductive raised : Type :=
| Builtin (e : exn)
| AttributeError (attribute : string).

Inductive outcome (A : Type) : Type :=
| Returns (a : A)
| Raises (e : raised).
Arguments Returns {A} a.
Arguments Raises {A} e.

(** [l[i] = x] on a list. *)
Definition setitem {A : Type} (l : list A) (i : nat) (x : A) : outcome (list A) :=
  if decide (i < length l)%nat then Returns (<[i := x]> l)
  else Raises (Builtin IndexError).

(** [v.split()] on a stored value. *)
Definition value_split (v : value) : outcome (list string) :=
  match v with
  | VStr s => Returns (split_ws s)
  | _ => Raises (AttributeError "split")
  end.

(** [s.endswith("/")]. *)
Fixpoint ends_with_slash (s : string) : bool :=
  match s with
  | EmptyString => false
  | String c EmptyString => Ascii.eqb c "/"
  | String _ s' => ends_with_slash s'
  end.

(** [os.path.join(a, b)] of posixpath. *)
Definition path_join (a b : string) : string :=
  match b with
  | String "/" _ => b
  | _ =>
      if bool_decide (a = EmptyString) || ends_with_slash a then a ++ b
      else a ++ "/" ++ b
  end.

End Py.

(** ** hashlib.sha256

    The registry stores [hashlib.sha256(...).hexdigest()] of a password.
    The digest is computed on 32-bit words held in [Z], with the
    wrap-around written out. *)

Module Sha256.

Definition w32 (x : Z) : Z := Z.land x 0xFFFFFFFF.

Definition add32 (x y : Z) : Z := w32 (x + y).

Definition rotr (n x : Z) : Z :=
  Z.lor (Z.shiftr x n) (w32 (Z.shiftl x (32 - n))).

Definition Ch (x y z : Z) : Z :=
  Z.lxor (Z.land x y) (Z.land (w32 (Z.lnot x)) z).

Definition Maj (x y z : Z) : Z :=
  Z.lxor (Z.lxor (Z.land x y) (Z.land x z)) (Z.land y z).

Definition Sigma0 (x : Z) : Z :=
  Z.lxor (Z.lxor (rotr 2 x) (rotr 13 x)) (rotr 22 x).

Definition Sigma1 (x : Z) : Z :=
  Z.lxor (Z.lxor (rotr 6 x) (rotr 11 x)) (rotr 25 x).

Definition sigma0 (x : Z) : Z :=
  Z.lxor (Z.lxor (rotr 7 x) (rotr 18 x)) (Z.shiftr x 3).

Definition sigma1 (x : Z) : Z :=
  Z.lxor (Z.lxor (rotr 17 x) (rotr 19 x)) (Z.shiftr x 10).

(** The constants of the standard are fractional parts of roots of the
    first primes; they are computed here rather than tabulated. *)
Definition is_prime (n : nat) : bool :=
  forallb (λ d, negb (n mod d =? 0)%nat) (seq 2 (n - 2)).

Definition primes (count : nat) : list Z :=
  Z.of_nat <$> take count (filter (λ n, is_prime n = true) (seq 2 310)).

(** The largest [r] below [2 ^ bits] with [r ^ 3 <= n], bit by bit. *)
Fixpoint cube_root (bits : nat) (n r : Z) : Z :=
  match bits with
  | O => r
  | S b =>
      let r' := r + Z.shiftl 1 (Z.of_nat b) in
      cube_root b n (if r' * r' * r' <=? n then r' else r)
  end.

(** The first 32 bits of the fractional parts of the cube roots of the
    first 64 primes. *)
Definition K : list Z :=
  Eval vm_compute in
    (λ p, w32 (cube_root 36 (Z.shiftl p 96) 0)) <$> primes 64.

(** The first 32 bits of the fractional parts of the square roots of the
    first 8 primes. *)
Definition H0 : list Z :=
  Eval vm_compute in (λ p, w32 (Z.sqrt (Z.shiftl p 64))) <$> primes 8.

(** Big-endian bytes of the low [8 * n] bits of [x]. *)
Fixpoint be_bytes (n : nat) (x : Z) : list Z :=
  match n with
  | O => []
  | S n' => Z.land (Z.shiftr x (8 * Z.of_nat n')) 0xFF :: be_bytes n' x
  end.

(** The message followed by the bit 1, zeros, and its bit length on 64
    bits: a whole number of 64-byte blocks. *)
Definition pad (msg : list Z) : list Z :=
  let len := Z.of_nat (length msg) in
  msg ++ [0x80] ++ repeat 0 (Z.to_nat ((55 - len) mod 64))
      ++ be_bytes 8 (8 * len).

Fixpoint be_words (n : nat) (bytes : list Z) : list Z :=
  match n, bytes with
  | S n', b0 :: b1 :: b2 :: b3 :: rest =>
      (Z.shiftl b0 24 + Z.shiftl b1 16 + Z.shiftl b2 8 + b3)
        :: be_words n' rest
  | _, _ => []
  end.

(** The message schedule: [n] more words after those of [w]. *)
Fixpoint schedule (n : nat) (w : list Z) : list Z :=
  match n with
  | O => w
  | S n' =>
      let t := length w in
      let at_ (i : nat) := nth (t - i) w 0 in
      schedule n'
        (w ++ [add32 (add32 (sigma1 (at_ 2%nat)) (at_ 7%nat))
                     (add32 (sigma0 (at_ 15%nat)) (at_ 16%nat))])
  end.

Definition round (s : list Z) (kw : Z * Z) : list Z :=
  match s with
  | [a; b; c; d; e; f; g; h] =>
      let t1 := add32 (add32 (add32 h (Sigma1 e)) (Ch e f g))
                      (add32 (fst kw) (snd kw)) in
      let t2 := add32 (Sigma0 a) (Maj a b c) in
      [add32 t1 t2; a; b; c; add32 d t1; e; f; g]
  | _ => s
  end.

Definition compress (h : list Z) (block : list Z) : list Z :=
  let w := schedule 48 (be_words 16 block) in
  zip_with add32 h (fold_left round (zip K w) h).

Fixpoint blocks (n : nat) (h : list Z) (bytes : list Z) : list Z :=
  match n with
  | O => h
  | S n' => blocks n' (compress h (take 64 bytes)) (drop 64 bytes)
  end.

Definition digest (msg : list Z) : list Z :=
  let p := pad msg in
  flat_map (be_bytes 4) (blocks (length p / 64) H0 p).

Definition hex_char (n : Z) : ascii :=
  ascii_of_nat (Z.to_nat (if n <? 10 then 48 + n else 87 + n)).

Fixpoint hex (bytes : list Z) : string :=
  match bytes with
  | [] => EmptyString
  | b :: rest =>
      String (hex_char (Z.shiftr b 4)) (String (hex_char (Z.land b 15)) (hex rest))
  end.

(** [hashlib.sha256(msg).hexdigest()]. *)
Definition hexdigest (msg : list Z) : string := hex (digest msg).

(** [bytes(s, "utf-8")] for code points below 256. *)
Fixpoint utf8 (s : string) : list Z :=
  match s with
  | EmptyString => []
  | String c s' =>
      let n := Z.of_nat (nat_of_ascii c) in
      if n <? 128 then n :: utf8 s'
      else (192 + Z.shiftr n 6) :: (128 + Z.land n 63) :: utf8 s'
  end.

End Sha256.

(** ** State and exceptions

    [M S A]: a computation over a state [S] that returns an [A] or raises.
    The state that an exception leaves behind is kept: what was appended to
    a shared list before the exception stays appended. *)

Import Py.

#[global] Instance result_ret : MRet result := @Ok.
#[global] Instance result_bind : MBind result := λ A B f r,
  match r with
  | Ok a => f a
  | Raise e => Raise e
  end.

Definition M (S A : Type) : Type := S → S * result A.

#[global] Instance M_ret {S} : MRet (M S) := λ A a s, (s, Ok a).
#[global] Instance M_bind {S} : MBind (M S) := λ A B f m s,
  match m s with
  | (s', Ok a) => f a s'
  | (s', Raise e) => (s', Raise e)
  end.

Definition lift {S A} (r : result A) : M S A := λ s, (s, r).
Definition gets {S A} (f : S → A) : M S A := λ s, (s, Ok (f s)).
Definition modify {S} (f : S → S) : M S unit := λ s, (f s, Ok tt).

(** [for x in l: acc = body(x, acc)]. *)
Fixpoint for_each {S A B} (body : A → B → M S B) (l : list A) (acc : B) : M S B :=
  match l with
  | [] => mret acc
  | x :: rest => acc' ← body x acc; for_each body rest acc'
  end.

Definition nl : ascii := "010"%char.
Definition NL : string := String nl EmptyString.

(** ** The validators *)

(** The loop of [valid_ipv4] over the four parts: a part is rejected when
    [int(i) < 0 and int(i) > 255]; [int] is evaluated again for the second
    comparison only when the first one holds. *)
Fixpoint valid_ipv4_parts (arr : list string) : result bool :=
  match arr with
  | [] => Ok true
  | i :: rest =>
      n ← int i;
      if n <? 0 then
        m ← int i;
        if 255 <? m then Ok false else valid_ipv4_parts rest
      else valid_ipv4_parts rest
  end.

Definition valid_ipv4 (ip : string) : result bool :=
  if decide (ip = EmptyString) then Ok false
  else
    let arr := split "." ip in
    if decide (length arr ≠ 4%nat) then Ok false
    else valid_ipv4_parts arr.

(** [port > 0 and port < 65536]; ordering a [str] or [None] against an
    [int] raises [TypeError]. *)
Definition valid_port (port : value) : result bool :=
  match port with
  | VInt p => Ok ((0 <? p) && (p <? 65536))
  | _ => Raise TypeError
  end.

(** ** class RedisConfig *)

Module RedisConfig.

(** What outlives an instance: the files, and the class attribute
    [entry_order], a list that no instance ever rebinds, so that
    [self.entry_order] is this one list for every instance. *)
Record State : Type := {
  files : gmap string string;
  entry_order : list string;
}.

(** The attributes [__init__] and [parse] bind on the instance. *)
Record t : Type := {
  filename : string;
  entries : gmap string value;
  comments : gmap string string;
  trailing_comments : string;
  changed : bool;
}.

(** Reading in text mode: a carriage return, with the newline that
    follows it if one does, is read as one newline. *)
Fixpoint translate_newlines (after_cr : bool) (s : string) : string :=
  match s with
  | EmptyString => EmptyString
  | String c s' =>
      if Ascii.eqb c "013" then String nl (translate_newlines true s')
      else if Ascii.eqb c nl && after_cr then translate_newlines false s'
      else String c (translate_newlines false s')
  end.

Definition universal_newlines (s : string) : string := translate_newlines false s.

(** [open(path, "r+")] and [f.read()]. *)
Definition read (path : string) : M State string := λ w,
  match files w !! path with
  | Some text => (w, Ok (universal_newlines text))
  | None => (w, Raise (FileNotFoundError path))
  end.

(** The state after [self.entry_order.extend(ks)]. *)
Definition appended (w : State) (ks : list string) : State :=
  {| files := files w; entry_order := (entry_order w ++ ks)%list |}.

(** [self.entry_order.append(key)]. *)
Definition entry_order_append (key : string) : M State unit :=
  modify (λ w, appended w [key]).

(** [len(line) > 0 and line[0] != "#"]. *)
Definition is_entry_line (line : string) : bool :=
  match line with
  | EmptyString => false
  | String c _ => negb (Ascii.eqb c "#")
  end.

(** The loop variables of [parse]: [self.entries], [self.comments] and the
    local [comments]. *)
Definition parse_acc : Type :=
  (gmap string value * gmap string string * string)%type.

(** The body of the loop of [parse] for one line. *)
Definition parse_line (line : string) (acc : parse_acc) : M State parse_acc :=
  let '(entries, comments, pending) := acc in
  if is_entry_line line then
    let line_contents := split_maxsplit1 line in
    key0 ← lift (item line_contents 0);
    line_contents ←
      (if decide (is_Some (entries !! key0)) then
         rest ← lift (item line_contents 1);
         let sub_split := split_maxsplit1 rest in
         qualifier ← lift (item sub_split 0);
         let line_contents := <[0%nat := key0 ++ " " ++ qualifier]> line_contents in
         remainder ← lift (item sub_split 1);
         mret (<[1%nat := remainder]> line_contents)
       else mret line_contents);
    key ← lift (item line_contents 0);
    entry_order_append key;;
    val ← lift (item line_contents 1);
    mret (<[key := VStr val]> entries, <[key := pending]> comments, EmptyString)
  else
    mret (entries, comments, pending ++ line ++ NL).

Definition parse (self : t) : M State t :=
  file_contents ← read (filename self);
  let file_lines := split nl file_contents in
  acc ← for_each parse_line file_lines (∅, ∅, EmptyString);
  let '(entries, comments, pending) := acc in
  mret {| filename := filename self;
          entries := entries;
          comments := comments;
          trailing_comments := drop_last pending;
          changed := changed self |}.

(** [RedisConfig(filename)]. *)
Definition __init__ (filename : string) : M State t :=
  parse {| filename := filename;
           entries := ∅;
           comments := ∅;
           trailing_comments := EmptyString;
           changed := false |}.

(** The loop of [write]: what has been written so far, and whether the
    loop completed. *)
Fixpoint write_entries (self : t) (order : list string) (out : string)
  : string * result unit :=
  match order with
  | [] => (out, Ok tt)
  | entry :: rest =>
      match comments self !! entry with
      | None => (out, Raise (KeyError entry))
      | Some c =>
          match entries self !! entry with
          | None => (out ++ c, Raise (KeyError entry))
          | Some v =>
              write_entries self rest (out ++ c ++ entry ++ " " ++ str v ++ NL)
          end
      end
  end.

(** [write]: the file is opened with mode "w", so it holds exactly what
    was written, also when a lookup raises half way. *)
Definition write (self : t) : M State unit := λ w,
  let (out, r) := write_entries self (entry_order w) EmptyString in
  let out := match r with
             | Ok _ => out ++ trailing_comments self
             | Raise _ => out
             end in
  ({| files := <[filename self := out]> (files w);
      entry_order := entry_order w |}, r).

(** The instance after [self.entries[key] = v; self.changed = True]. *)
Definition bound (self : t) (key : string) (v : value) : t :=
  {| filename := filename self;
     entries := <[key := v]> (entries self);
     comments := comments self;
     trailing_comments := trailing_comments self;
     changed := true |}.

Definition set_config_value (self : t) (key : string) (v : value) : t * bool :=
  match entries self !! key with
  | None => (self, false)
  | Some _ => (bound self key v, true)
  end.

Definition get_config_value (self : t) (key : string) : value :=
  match entries self !! key with
  | Some v => v
  | None => VNone
  end.

Definition changes_made (self : t) : bool := changed self.

Definition get_ip_address (self : t) : value := get_config_value self "bind".

(** [set_ip_address]: [None] or a [str]. *)
Definition set_ip_address (self : t) (ipaddress : option string) : result (t * bool) :=
  match ipaddress with
  | None => Ok (self, false)
  | Some ip =>
      ok ← valid_ipv4 ip;
      if ok : bool then
        let (self', done) := set_config_value self "bind" (VStr ip) in
        if done then Ok (self', true) else Ok (self', false)
      else Ok (self, false)
  end.

Definition get_port (self : t) : value := get_config_value self "port".

(** [set_port]: the argument is stored as it is received. *)
Definition set_port (self : t) (port : value) : result (t * bool) :=
  match port with
  | VNone => Ok (self, false)
  | _ =>
      ok ← valid_port port;
      if ok : bool then
        let (self', done) := set_config_value self "port" port in
        if done then Ok (self', true) else Ok (self', false)
      else Ok (self, false)
  end.

Definition set_filename (self : t) (filename : string) : t :=
  {| filename := filename;
     entries := entries self;
     comments := comments self;
     trailing_comments := trailing_comments self;
     changed := changed self |}.

(** [set_password]: the outcome of [set_config_value] is not looked at. *)
Definition set_password (self : t) (password : option string) : t * bool :=
  match password with
  | None => (self, false)
  | Some p => ((set_config_value self "requirepass" (VStr p)).1, true)
  end.

Definition get_password (self : t) : value := get_config_value self "requirepass".

(** [set_directory]; [exists_] is [os.path.exists]. *)
Definition set_directory (exists_ : string → bool) (self : t)
    (directory : option string) : t * bool :=
  match directory with
  | None => (self, false)
  | Some d =>
      if exists_ d then
        let (self', done) := set_config_value self "dir" (VStr d) in
        if done then (self', true) else (self', false)
      else (self, false)
  end.

(** The common body of [set_snapshot_seconds] (position 0) and
    [set_snapshot_changes] (position 1): the words of the value of [save],
    one of them replaced, joined by single spaces. *)
Definition set_snapshot_at (position : nat) (self : t) (arg : value)
  : outcome (t * bool) :=
  match arg with
  | VNone => Returns (self, false)
  | _ =>
      match get_config_value self "save" with
      | VNone => Returns (self, false)
      | v =>
          match value_split v with
          | Raises e => Raises e
          | Returns words =>
              match setitem words position (str arg) with
              | Raises e => Raises e
              | Returns words =>
                  let (self', done) :=
                    set_config_value self "save" (VStr (join " " words)) in
                  if done then Returns (self', true) else Returns (self', false)
              end
          end
      end
  end.

Definition set_snapshot_seconds (self : t) (seconds : value) : outcome (t * bool) :=
  set_snapshot_at 0 self seconds.

Definition set_snapshot_changes (self : t) (changes : value) : outcome (t * bool) :=
  set_snapshot_at 1 self changes.

Definition set_snapshot_file (self : t) (file : option string) : t * bool :=
  match file with
  | None => (self, false)
  | Some f =>
      let (self', done) := set_config_value self "dbfilename" (VStr f) in
      if done then (self', true) else (self', false)
  end.

Definition valid_modes : list string := ["always"; "everysec"; "no"].

Definition set_append_mode (self : t) (mode : option string) : t * bool :=
  match mode with
  | None => (self, false)
  | Some m =>
      if bool_decide (m ∈ valid_modes) then
        let (self', done) := set_config_value self "appendfsync" (VStr m) in
        if done then (self', true) else (self', false)
      else (self, false)
  end.

Definition set_append_file (self : t) (file : option string) : t * bool :=
  match file with
  | None => (self, false)
  | Some f =>
      let (self', done) := set_config_value self "appendfilename" (VStr f) in
      if done then (self', true) else (self', false)
  end.

(** The text [write] emits for one entry. *)
Definition entry_text (self : t) (key : string) : string :=
  default EmptyString (comments self !! key) ++ key ++ " "
    ++ str (default VNone (entries self !! key)) ++ NL.

Fixpoint entries_text (self : t) (order : list string) : string :=
  match order with
  | [] => EmptyString
  | key :: rest => entry_text self key ++ entries_text self rest
  end.

End RedisConfig.

(** ** dict, where the source iterates over it

    Insertion-ordered, one binding per key. *)

Module Dict.

Abbreviation dict V := (list (string * V)).

(** [d.get(key)]: [None] stands for a missing key. *)
Fixpoint get {V} (d : dict V) (key : string) : option V :=
  match d with
  | [] => None
  | (k, v) :: rest => if decide (k = key) then Some v else get rest key
  end.

(** [key in d]. *)
Definition mem {V} (d : dict V) (key : string) : bool :=
  bool_decide (is_Some (get d key)).

(** [d[key]]. *)
Definition getitem {V} (d : dict V) (key : string) : result V :=
  match get d key with
  | Some v => Ok v
  | None => Raise (KeyError key)
  end.

(** [d[key] = v]: a bound key keeps its place, a new key goes last. *)
Fixpoint set {V} (d : dict V) (key : string) (v : V) : dict V :=
  match d with
  | [] => [(key, v)]
  | (k, x) :: rest =>
      if decide (k = key) then (k, v) :: rest else (k, x) :: set rest key v
  end.

(** [del d[key]], for a bound key. *)
Fixpoint del {V} (d : dict V) (key : string) : dict V :=
  match d with
  | [] => []
  | (k, x) :: rest => if decide (k = key) then rest else (k, x) :: del rest key
  end.

Definition key_le {V} (x y : string * V) : Prop := String.le x.1 y.1.

#[global] Instance key_le_dec {V} : RelDecision (@key_le V) :=
  λ x y, decide (String.le x.1 y.1).

(** The order in which [yaml.dump] writes a mapping: sorted by key. *)
Definition sorted {V} (d : dict V) : dict V := merge_sort key_le d.

End Dict.

(** ** class RedisUsers *)

Module RedisUsers.

Import Dict.

(** The class attribute [User.hash_password]. *)
Definition User_hash_password : string :=
  Sha256.hexdigest (Sha256.utf8 "password").

(** The attributes bound on a [User] instance.  [__init__] binds
    [status], [keys] and [commands] always and [hash_password] only when a
    password is given: a lookup of [hash_password] on an instance without
    it finds the class attribute. *)
Record User : Type := {
  status : string;
  keys : string;
  commands : string;
  instance_hash_password : option string;
}.

(** [self.hash_password]. *)
Definition hash_password (self : User) : string :=
  default User_hash_password (instance_hash_password self).

Definition User_set_password (self : User) (password : string) : User :=
  {| status := status self;
     keys := keys self;
     commands := commands self;
     instance_hash_password :=
       Some (Sha256.hexdigest (Sha256.utf8 password)) |}.

(** [User(status, keys, commands, password)]; the defaults of the source
    are ["on"], ["*"], ["@all"] and [None]. *)
Definition User__init__ (status keys commands : string) (password : option string) : User :=
  let self := {| status := status; keys := keys; commands := commands;
                 instance_hash_password := None |} in
  match password with
  | Some p => User_set_password self p
  | None => self
  end.

Definition parse_dict (self : User) (d : dict string) : result User :=
  status ← getitem d "status";
  keys ← getitem d "keys";
  commands ← getitem d "commands";
  hash ← getitem d "hash_password";
  Ok {| status := status; keys := keys; commands := commands;
        instance_hash_password := Some hash |}.

(** [get_user_dict] first rebinds [self.status]. *)
Definition get_user_dict (self : User) : User * dict string :=
  let self := {| status := "on"; keys := keys self; commands := commands self;
                 instance_hash_password := instance_hash_password self |} in
  (self, [("status", status self); ("hash_password", hash_password self);
          ("keys", keys self); ("commands", commands self)]).

(** What the client sends to the server. *)
Inductive command : Type :=
| acl_setuser (username : string) (hashed_passwords : list string)
              (enabled : bool) (keys : string) (commands : list string)
| acl_deluser (username : string).

#[global] Instance command_eq_dec : EqDecision command.
Proof. solve_decision. Defined.

(** The server that [redis.Redis(host, port, password)] reaches: the names
    of its ACL users, as [acl_users()] lists them, and the commands it has
    received. *)
Record Redis : Type := {
  acl_users : list string;
  received : list command;
}.

(** What outlives an instance: the registry files, as the mappings that
    [yaml.load] returns for them; the class attribute [users], a dict that
    an instance mutates in place as long as it has not bound [self.users]
    itself; and the server. *)
Record State : Type := {
  files : gmap string (dict (dict string));
  class_users : dict User;
  db : Redis;
}.

(** The attributes bound on an instance; [users] is bound by [parse]
    only. *)
Record t : Type := {
  filename : string;
  users : option (dict User);
}.

(** [self.users]: the dict of the instance, or else the dict of the class. *)
Definition the_users (self : t) (w : State) : dict User :=
  default (class_users w) (users self).

Definition self_users (self : t) : M State (dict User) := gets (the_users self).

(** An in-place update of the dict that [self.users] denotes. *)
Definition update_users (self : t) (d : dict User) : M State t := λ w,
  match users self with
  | Some _ => (w, Ok {| filename := filename self; users := Some d |})
  | None => ({| files := files w; class_users := d; db := db w |}, Ok self)
  end.

(** The loop of [parse]: every loaded record is replaced by a [User]. *)
Fixpoint parse_users (loaded : dict (dict string)) : result (dict User) :=
  match loaded with
  | [] => Ok []
  | (user, d) :: rest =>
      new_user ← parse_dict (User__init__ "on" "*" "@all" None) d;
      rest' ← parse_users rest;
      Ok ((user, new_user) :: rest')
  end.

Definition parse (self : t) : M State t :=
  loaded ← (λ w, match files w !! filename self with
                 | Some d => (w, Ok d)
                 | None => (w, Raise (FileNotFoundError (filename self)))
                 end);
  d ← lift (parse_users loaded);
  mret {| filename := filename self; users := Some d |}.

(** [RedisUsers(filename)]: [parse] runs only when the file exists. *)
Definition __init__ (filename : string) : M State t :=
  let self := {| filename := filename; users := None |} in
  exists_ ← gets (λ w, bool_decide (is_Some (files w !! filename)));
  if exists_ : bool then parse self else mret self.

Definition write (self : t) : M State t :=
  d ← self_users self;
  let data := (λ kv : string * User, (kv.1, (get_user_dict kv.2).2)) <$> d in
  self ← update_users self ((λ kv : string * User, (kv.1, (get_user_dict kv.2).1)) <$> d);
  modify (λ w, {| files := <[filename self := sorted (prod_map id sorted <$> data)]> (files w);
                  class_users := class_users w;
                  db := db w |});;
  mret self.

Definition add_user (self : t) (user status keys commands : string)
    (password : option string) : M State (t * bool) :=
  d ← self_users self;
  if mem d user then mret (self, false)
  else
    self ← update_users self (set d user (User__init__ status keys commands password));
    mret (self, true).

(** [set_password] returns [False] for an unknown user and falls off its
    end otherwise: [None] below is Python's [None]. *)
Definition set_password (self : t) (user password : string) : M State (t * option bool) :=
  d ← self_users self;
  match get d user with
  | None => mret (self, Some false)
  | Some u =>
      self ← update_users self (set d user (User_set_password u password));
      mret (self, None)
  end.

Definition remove_user (self : t) (user : string) : M State (t * bool) :=
  d ← self_users self;
  if mem d user then
    self ← update_users self (del d user);
    mret (self, true)
  else mret (self, false).

(** The server's side of a command. *)
Definition send (c : command) : M State unit :=
  modify (λ w,
    let names :=
      match c with
      | acl_setuser user _ _ _ _ =>
          if bool_decide (user ∈@{list string} acl_users (db w)) then acl_users (db w)
          else (acl_users (db w) ++ [user])%list
      | acl_deluser user => filter (λ n, n ≠ user) (acl_users (db w))
      end in
    {| files := files w;
       class_users := class_users w;
       db := {| acl_users := names; received := (received (db w) ++ [c])%list |} |}).

Definition apply_to_redis (self : t) : M State unit :=
  current_users ← gets (λ w, acl_users (db w));
  d ← self_users self;
  for_each (λ (kv : string * User) (_ : unit),
      let (user, data) := kv in
      if bool_decide (user ∉@{list string} current_users) then
        send (acl_setuser user ["+" ++ hash_password data]
                (bool_decide (status data = "on")) (keys data)
                ["+" ++ commands data])
      else mret tt) d tt;;
  for_each (λ (user : string) (_ : unit),
      if negb (mem d user) then send (acl_deluser user) else mret tt)
    current_users tt.

(** The commands of a reconciliation, said as two differences: one
    [acl_setuser] for every declared user that the server does not list,
    then one [acl_deluser] for every listed user that is not declared. *)
Definition creates (current_users : list string) (d : dict User) : list command :=
  flat_map (λ kv : string * User,
      if bool_decide (kv.1 ∉@{list string} current_users) then
        [acl_setuser kv.1 ["+" ++ hash_password kv.2]
           (bool_decide (status kv.2 = "on")) (keys kv.2) ["+" ++ commands kv.2]]
      else []) d.

Definition deletes (current_users : list string) (d : dict User) : list command :=
  flat_map (λ user : string,
      if mem d user then [] else [acl_deluser user]) current_users.

End RedisUsers.

(** ** Texts that [write] gives back unchanged *)

Module Canonical.

Import RedisConfig.

(** [cut s = Some (k, v)] when [s] is the word [k], one space, and a
    non-empty [v] that starts with a character that is not whitespace. *)
Definition cut (s : string) : option (string * string) :=
  match span_token s with
  | (String c k, String sp (String c' v)) =>
      if Ascii.eqb sp " " && negb (isspace c') then Some (String c k, String c' v)
      else None
  | _ => None
  end.

(** Every entry line is its key, one space and its value, where the key is
    the first word of the line, or the first two words joined by one space
    when the first word is a key already, and no key comes twice.  [seen]
    holds the keys of the lines before. *)
Fixpoint canonical_lines (seen : gset string) (lines : list string) : bool :=
  match lines with
  | [] => true
  | line :: rest =>
      if is_entry_line line then
        match cut line with
        | Some (k, v) =>
            if bool_decide (k ∈ seen) then
              match cut v with
              | Some (q, _) =>
                  bool_decide (k ++ " " ++ q ∉ seen)
                  && canonical_lines ({[k ++ " " ++ q]} ∪ seen) rest
              | None => false
              end
            else canonical_lines ({[k]} ∪ seen) rest
        | None => false
        end
      else canonical_lines seen rest
  end.

(** No carriage return in the text. *)
Fixpoint no_cr (s : string) : bool :=
  match s with
  | EmptyString => true
  | String c s' => negb (Ascii.eqb c "013") && no_cr s'
  end.

(** A canonical text: no carriage return, canonical lines, the last of
    which is not an entry line (the text ends with a newline or with a
    comment). *)
Definition canonical (text : string) : bool :=
  let lines := split nl text in
  no_cr text
  && canonical_lines ∅ lines && negb (is_entry_line (List.last lines EmptyString)).

(** Every line followed by a newline. *)
Fixpoint unlines (lines : list string) : string :=
  match lines with
  | [] => EmptyString
  | line :: rest => line ++ NL ++ unlines rest
  end.

(** A process that has built no store yet, with one file. *)
Definition fresh (fname text : string) : State :=
  {| files := {[ fname := text ]}; entry_order := [] |}.

(** The round trip of one text: whatever the name of the file and the
    other files, building the first store of the process from the file and
    writing it at once succeeds and leaves the text in the file. *)
Definition roundtrip_holds (text : string) : Prop :=
  ∀ (fname : string) (w : State),
    files w !! fname = Some text →
    entry_order w = [] →
    ∃ w', (cfg ← __init__ fname; write cfg) w = (w', Ok tt)
          ∧ files w' !! fname = Some text.

(** What [write] leaves in the file after [parse], on a fresh process. *)
Definition written (text : string) : option string * result unit :=
  let (w, r) := (cfg ← __init__ "redis.conf"; write cfg) (fresh "redis.conf" text) in
  (files w !! "redis.conf", r).

(** The two snapshot lines, with and without the final newline. *)
Definition save_lines : string := "save 900 1" ++ NL ++ "save 300 10" ++ NL.
Definition save_lines_open : string := "save 900 1" ++ NL ++ "save 300 10".

End Canonical.

(** ** class ContainerConfig, ContainerFormatConfig, ProcessConfig,
       ServerConfig

    A section of the parsed merlin_server.yaml is a map from field names
    to strings; the whole file is a map from section names to sections. *)

Module ContainerConfig.

Definition FORMAT : string := "singularity".
Definition IMAGE_NAME : string := "redis_latest.sif".
Definition REDIS_URL : string := "docker://redis".
Definition CONFIG_FILE : string := "redis.conf".
Definition CONFIG_DIR : string := "./merlin_server/".
Definition PROCESS_FILE : string := "merlin_server.pf".
Definition PASSWORD_FILE : string := "redis.pass".
Definition USERS_FILE : string := "redis.users".

Record t : Type := {
  format : string;
  image : string;
  url : string;
  config : string;
  config_dir : string;
  pfile : string;
  pass_file : string;
  user_file : string;
}.

(** [data[key] if key in data else fallback]. *)
Definition field (data : gmap string string) (key fallback : string) : string :=
  default fallback (data !! key).

Definition __init__ (data : gmap string string) : t :=
  {| format := field data "format" FORMAT;
     image := field data "image" IMAGE_NAME;
     url := field data "url" REDIS_URL;
     config := field data "config" CONFIG_FILE;
     config_dir := field data "config_dir" CONFIG_DIR;
     pfile := field data "pfile" PROCESS_FILE;
     pass_file := field data "pass_file" PASSWORD_FILE;
     user_file := field data "user_file" USERS_FILE |}.

Definition get_format (self : t) : string := format self.
Definition get_image_name (self : t) : string := image self.
Definition get_image_url (self : t) : string := url self.
Definition get_image_path (self : t) : string := path_join (config_dir self) (image self).
Definition get_config_name (self : t) : string := config self.
Definition get_config_path (self : t) : string := path_join (config_dir self) (config self).
Definition get_config_dir (self : t) : string := config_dir self.
Definition get_pfile_name (self : t) : string := pfile self.
Definition get_pfile_path (self : t) : string := path_join (config_dir self) (pfile self).
Definition get_pass_file_name (self : t) : string := pass_file self.
Definition get_pass_file_path (self : t) : string := path_join (config_dir self) (pass_file self).
Definition get_user_file_name (self : t) : string := user_file self.
Definition get_user_file_path (self : t) : string := path_join (config_dir self) (user_file self).

End ContainerConfig.

Module ContainerFormatConfig.

Definition COMMAND : string := "singularity".
Definition RUN_COMMAND : string := "{command} run {image} {config}".
Definition STOP_COMMAND : string := "kill".
Definition PULL_COMMAND : string := "{command} pull {image} {url}".

Record t : Type := {
  command : string;
  run_command : string;
  stop_command : string;
  pull_command : string;
}.

Definition __init__ (data : gmap string string) : t :=
  {| command := ContainerConfig.field data "command" COMMAND;
     run_command := ContainerConfig.field data "run_command" RUN_COMMAND;
     stop_command := ContainerConfig.field data "stop_command" STOP_COMMAND;
     pull_command := ContainerConfig.field data "pull_command" PULL_COMMAND |}.

End ContainerFormatConfig.

Module ProcessConfig.

Definition STATUS_COMMAND : string := "pgrep -P {pid}".
Definition KILL_COMMAND : string := "kill {pid}".

Record t : Type := {
  status : string;
  kill : string;
}.

Definition __init__ (data : gmap string string) : t :=
  {| status := ContainerConfig.field data "status" STATUS_COMMAND;
     kill := ContainerConfig.field data "kill" KILL_COMMAND |}.

End ProcessConfig.

Module ServerConfig.

(** The three attributes are [None] on the class; [__init__] binds the
    ones whose section is present. *)
Record t : Type := {
  container : option ContainerConfig.t;
  process : option ProcessConfig.t;
  container_format : option ContainerFormatConfig.t;
}.

(** [ServerConfig(data)]: [self.container.get_format()] is evaluated
    whether or not the section [container] was there. *)
Definition __init__ (data : gmap string (gmap string string)) : outcome t :=
  let container := ContainerConfig.__init__ <$> data !! "container" in
  let process := ProcessConfig.__init__ <$> data !! "process" in
  match container with
  | None => Raises (AttributeError "get_format")
  | Some c =>
      Returns {| container := container;
                 process := process;
                 container_format :=
                   ContainerFormatConfig.__init__
                     <$> data !! ContainerConfig.get_format c |}
  end.

End ServerConfig.

(** ** Vocabulary of the properties *)

(** [int(s)] returns. *)
Definition is_int_literal (s : string) : bool :=
  match int s with
  | Ok _ => true
  | Raise _ => false
  end.

(** A word: not empty, no whitespace in it. *)
Fixpoint no_space (s : string) : bool :=
  match s with
  | EmptyString => true
  | String c s' => negb (isspace c) && no_space s'
  end.

Definition is_word (s : string) : bool :=
  negb (bool_decide (s = EmptyString)) && no_space s.

(** What a setter that answers [r] on the store [self] may have done: on
    [False] nothing; on [True] it has set [changed] and has kept the keys,
    the comments, the trailing comments and the file name. *)
Definition edits_only (self : RedisConfig.t) (r : RedisConfig.t * bool) : Prop :=
  if r.2 then
    RedisConfig.changed r.1 = true
    ∧ dom (RedisConfig.entries r.1) = dom (RedisConfig.entries self)
    ∧ RedisConfig.comments r.1 = RedisConfig.comments self
    ∧ RedisConfig.trailing_comments r.1 = RedisConfig.trailing_comments self
    ∧ RedisConfig.filename r.1 = RedisConfig.filename self
  else r.1 = self.

(** Every key of [order] has a value and comments. *)
Definition all_bound (self : RedisConfig.t) (order : list string) : Prop :=
  Forall (λ k, is_Some (RedisConfig.entries self !! k)
               ∧ is_Some (RedisConfig.comments self !! k)) order.

(** A loaded record with the four fields [parse_dict] reads. *)
Definition complete (record : Dict.dict string) : Prop :=
  Forall (λ f, is_Some (Dict.get record f))
    ["status"; "keys"; "commands"; "hash_password"].

#[global] Instance complete_dec (record : Dict.dict string) : Decision (complete record).
Proof. unfold complete. apply _. Defined.

(** [name.startswith("/")]. *)
Definition is_absolute (name : string) : bool :=
  match name with
  | String "/" _ => true
  | _ => false
  end.

(** The user that [parse_dict] makes of a loaded record: the four
    fields, as they are in the record. *)
Definition loaded_as (record : Dict.dict string) (u : RedisUsers.User) : Prop :=
  Dict.get record "status" = Some (RedisUsers.status u)
  ∧ Dict.get record "keys" = Some (RedisUsers.keys u)
  ∧ Dict.get record "commands" = Some (RedisUsers.commands u)
  ∧ Dict.get record "hash_password" = Some (RedisUsers.hash_password u).

(** A lower-case hexadecimal digit. *)
Definition is_hex (c : ascii) : bool :=
  let n := nat_of_ascii c in
  ((48 <=? n) && (n <=? 57) || (97 <=? n) && (n <=? 102))%nat.

Fixpoint all_hex (s : string) : bool :=
  match s with
  | EmptyString => true
  | String c s' => is_hex c && all_hex s'
  end.

(** A store with a snapshot entry. *)
Definition snapshot_store : RedisConfig.t :=
  {| RedisConfig.filename := "redis.conf";
     RedisConfig.entries := {[ "save" := VStr "900 1"; "appendfsync" := VStr "no" ]};
     RedisConfig.comments := {[ "save" := EmptyString; "appendfsync" := EmptyString ]};
     RedisConfig.trailing_comments := EmptyString;
     RedisConfig.changed := false |}.

(** ** Sample data *)

Definition sample_conf : string :=
  "# network" ++ NL ++ "bind 127.0.0.1" ++ NL ++ "port 6379" ++ NL.

Definition sample_store : RedisConfig.t :=
  {| RedisConfig.filename := "redis.conf";
     RedisConfig.entries := {[ "bind" := VStr "127.0.0.1"; "port" := VStr "6379" ]};
     RedisConfig.comments := {[ "bind" := "# network" ++ NL; "port" := EmptyString ]};
     RedisConfig.trailing_comments := EmptyString;
     RedisConfig.changed := false |}.

Definition sample_record (status : string) : Dict.dict string :=
  [("status", status); ("keys", "*"); ("commands", "@all");
   ("hash_password", Sha256.hexdigest (Sha256.utf8 "secret"))].

(** A registry file with one enabled and one disabled user, no class-level
    users yet, and a server that knows [default] only. *)
Definition sample_users_state : RedisUsers.State :=
  {| RedisUsers.files :=
       {[ "redis.users" := [("alice", sample_record "on"); ("bob", sample_record "off")] ]};
     RedisUsers.class_users := [];
     RedisUsers.db :=
       {| RedisUsers.acl_users := ["default"]; RedisUsers.received := [] |} |}.

(** The registry loaded from the sample file. *)
Definition sample_registry : RedisUsers.t :=
  {| RedisUsers.filename := "redis.users";
     RedisUsers.users :=
       Some [("alice", RedisUsers.User_set_password
                         (RedisUsers.User__init__ "on" "*" "@all" None) "secret");
             ("bob", RedisUsers.User_set_password
                       (RedisUsers.User__init__ "off" "*" "@all" None) "secret")] |}.

(** No registry file at all. *)
Definition no_users_files : RedisUsers.State :=
  {| RedisUsers.files := ∅;
     RedisUsers.class_users := [];
     RedisUsers.db :=
       {| RedisUsers.acl_users := ["default"]; RedisUsers.received := [] |} |}.

(** The sample registry next to a server that lists [bob] and [carol]. *)
Definition sample_live_state : RedisUsers.State :=
  {| RedisUsers.files := RedisUsers.files sample_users_state;
     RedisUsers.class_users := [];
     RedisUsers.db :=
       {| RedisUsers.acl_users := ["bob"; "carol"]; RedisUsers.received := [] |} |}.

(** The two snapshot lines in one file, next to another configuration
    file. *)
Definition save_after_other : RedisConfig.State :=
  {| RedisConfig.files :=
       {[ "a.conf" := "x 1" ++ NL; "redis.conf" := Canonical.save_lines ]};
     RedisConfig.entry_order := [] |}.

(** Two lines that end with a carriage return and a newline. *)
Definition crlf_conf : string :=
  "bind 127.0.0.1" ++ String "013" NL ++ "port 6379" ++ String "013" NL.

(** Two configuration files. *)
Definition two_confs : RedisConfig.State :=
  {| RedisConfig.files :=
       {[ "a.conf" := "x 1" ++ NL; "b.conf" := "y 2" ++ NL ]};
     RedisConfig.entry_order := [] |}.

(** * Properties *)

(** ** The validators *)

(** The range test of [valid_ipv4] rejects nothing: no integer is both
    below 0 and above 255. *)
Lemma valid_ipv4_parts_not_false (arr : list string) :
  valid_ipv4_parts arr ≠ Ok false.
Proof.
  induction arr as [|i rest IH]; simpl; [discriminate|].
  destruct (int i) as [n|e] eqn:Hi; simpl; [|discriminate].
  destruct (n <? 0) eqn:Hneg; [|exact IH].
  destruct (255 <? n) eqn:Hbig; [|exact IH].
  apply Z.ltb_lt in Hneg, Hbig. lia.
Qed.

Lemma valid_port_int (p : Z) :
  valid_port (VInt p) = Ok true ↔ 0 < p < 65536.
Proof.
  simpl. split.
  - intros [= H]. apply andb_true_iff in H as [H1 H2].
    apply Z.ltb_lt in H1, H2. lia.
  - intros [H1 H2]. apply Z.ltb_lt in H1, H2. by rewrite H1, H2.
Qed.

(** ** RedisConfig: the setters *)

Section setters.
Import RedisConfig.

Lemma set_config_value_present (self : t) (key : string) (v : value) :
  is_Some (entries self !! key) →
  set_config_value self key v = (bound self key v, true).
Proof. intros [old Hold]. unfold set_config_value. by rewrite Hold. Qed.

(** C9: [set_config_value] on a key that is not among the entries returns
    [False] and returns the store as it was: same entries, same comments,
    same [changed] flag; the entry order is not in its reach. *)
Theorem set_config_value_absent (self : t) (key : string) (v : value) :
  entries self !! key = None →
  set_config_value self key v = (self, false).
Proof. intros Hkey. unfold set_config_value. by rewrite Hkey. Qed.

Lemma set_config_value_absent_witness :
  entries sample_store !! "nonexistent_key" = None
  ∧ set_config_value sample_store "nonexistent_key" (VStr "x") = (sample_store, false).
Proof.
  split; [reflexivity|].
  apply (set_config_value_absent sample_store "nonexistent_key" (VStr "x")).
  reflexivity.
Defined.

(** C3: on a store that has the key [bind], [set_ip_address] accepts
    "999.999.1.1": it returns [True] and binds [bind] to it. *)
Theorem set_ip_address_out_of_range (self : t) :
  is_Some (entries self !! "bind") →
  set_ip_address self (Some "999.999.1.1")
  = Ok (bound self "bind" (VStr "999.999.1.1"), true)
  ∧ get_ip_address (bound self "bind" (VStr "999.999.1.1")) = VStr "999.999.1.1".
Proof.
  intros Hbind. split.
  - unfold set_ip_address.
    replace (valid_ipv4 "999.999.1.1") with (Ok (A:=bool) true) by reflexivity.
    simpl. by rewrite set_config_value_present.
  - unfold get_ip_address, get_config_value, bound; simpl.
    by rewrite lookup_insert_eq.
Qed.

Lemma set_ip_address_out_of_range_witness :
  is_Some (entries sample_store !! "bind")
  ∧ set_ip_address sample_store (Some "999.999.1.1")
    = Ok (bound sample_store "bind" (VStr "999.999.1.1"), true)
  ∧ get_ip_address (bound sample_store "bind" (VStr "999.999.1.1"))
    = VStr "999.999.1.1".
Proof.
  assert (H : is_Some (entries sample_store !! "bind")) by (eexists; reflexivity).
  split; [exact H|].
  exact (set_ip_address_out_of_range sample_store H).
Defined.

(** [set_port] on an integer: [True] exactly for 1..65535, and a rejected
    port leaves the store as it was. *)
Lemma set_port_int (self : t) (p : Z) :
  is_Some (entries self !! "port") →
  set_port self (VInt p)
  = if bool_decide (0 < p < 65536) then Ok (bound self "port" (VInt p), true)
    else Ok (self, false).
Proof.
  intros Hport. unfold set_port, valid_port.
  case_bool_decide as Hp.
  - destruct Hp as [H1%Z.ltb_lt H2%Z.ltb_lt]. rewrite H1, H2; simpl.
    by rewrite set_config_value_present.
  - destruct (0 <? p) eqn:H1; destruct (p <? 65536) eqn:H2; simpl; try done.
    apply Z.ltb_lt in H1, H2. lia.
Qed.

(** [set_port] on a [str] raises. *)
Lemma set_port_str (self : t) (s : string) :
  set_port self (VStr s) = Raise TypeError.
Proof. reflexivity. Qed.

(** C8: on a store that has the key [port], [set_port(70000)] returns
    [False] and [set_port(6379)] returns [True]; [get_port] then returns
    the integer 6379 that was passed, which is not the string "6379". *)
Theorem set_port_get_port (self : t) :
  is_Some (entries self !! "port") →
  set_port self (VInt 70000) = Ok (self, false)
  ∧ set_port self (VInt 6379) = Ok (bound self "port" (VInt 6379), true)
  ∧ get_port (bound self "port" (VInt 6379)) = VInt 6379
  ∧ get_port (bound self "port" (VInt 6379)) ≠ VStr "6379".
Proof.
  intros Hport.
  assert (Hget : get_port (bound self "port" (VInt 6379)) = VInt 6379).
  { unfold get_port, get_config_value, bound; simpl. by rewrite lookup_insert_eq. }
  split; [|split; [|split]].
  - by rewrite set_port_int.
  - by rewrite set_port_int.
  - exact Hget.
  - by rewrite Hget.
Qed.

Lemma set_port_get_port_witness :
  is_Some (entries sample_store !! "port")
  ∧ set_port sample_store (VInt 70000) = Ok (sample_store, false)
  ∧ set_port sample_store (VInt 6379)
    = Ok (bound sample_store "port" (VInt 6379), true)
  ∧ get_port (bound sample_store "port" (VInt 6379)) = VInt 6379
  ∧ get_port (bound sample_store "port" (VInt 6379)) ≠ VStr "6379".
Proof.
  assert (H : is_Some (entries sample_store !! "port")) by (eexists; reflexivity).
  split; [exact H|].
  exact (set_port_get_port sample_store H).
Defined.

End setters.

(** ** dict *)

Section dict.
Import Dict.
Context {V : Type}.
Implicit Types (d : dict V) (k : string) (v : V).

Lemma get_set_eq d k v : get (set d k v) k = Some v.
Proof.
  induction d as [|[k' x] d IH]; simpl.
  - by rewrite decide_True.
  - destruct (decide (k' = k)) as [->|Hne]; simpl.
    + by rewrite decide_True.
    + by rewrite decide_False.
Qed.

Lemma get_set_ne d k k' v : k ≠ k' → get (set d k v) k' = get d k'.
Proof.
  intros Hne. induction d as [|[k0 x] d IH]; simpl.
  - by rewrite decide_False.
  - destruct (decide (k0 = k)) as [->|Hk0]; simpl.
    + by rewrite !decide_False.
    + by rewrite IH.
Qed.

Lemma mem_nil k : mem (@nil (string * V)) k = false.
Proof. reflexivity. Qed.

Lemma mem_cons d k k' v : mem ((k, v) :: d) k' = bool_decide (k = k') || mem d k'.
Proof.
  unfold mem; simpl. destruct (decide (k = k')) as [->|Hne].
  - rewrite (bool_decide_eq_true_2 (k' = k')) by done.
    by rewrite bool_decide_eq_true_2 by eauto.
  - by rewrite (bool_decide_eq_false_2 (k = k')).
Qed.

Lemma mem_false d k : mem d k = false ↔ get d k = None.
Proof.
  unfold mem. rewrite bool_decide_eq_false, <- not_eq_None_Some.
  split; [|naive_solver]. intros H. by destruct (get d k); [destruct H|].
Qed.

End dict.

(** ** RedisUsers: the registry *)

Section registry.
Import Dict RedisUsers.

Lemma update_users_the_users (self : t) (d : dict User) (w : State) :
  ∃ self' w', update_users self d w = (w', Ok self')
    ∧ the_users self' w' = d
    ∧ files w' = files w ∧ db w' = db w ∧ filename self' = filename self.
Proof.
  unfold update_users, the_users.
  destruct (users self) as [own|] eqn:Hown; eexists _, _; split; try done.
  simpl. by rewrite Hown.
Qed.

(** [set_password] on an unknown user: [False], nothing changes. *)
Lemma set_password_unknown (self : t) (w : State) (user password : string) :
  get (the_users self w) user = None →
  set_password self user password w = (w, Ok (self, Some false)).
Proof.
  intros Hget. unfold set_password, self_users, gets, mbind, M_bind.
  by rewrite Hget.
Qed.

(** C7: [set_password] on a registered user replaces the stored hash by
    the SHA-256 hex digest of the new password, and returns [None], not
    [True]. *)
Theorem set_password_registered (self : t) (w : State) (user password : string) (u : User) :
  get (the_users self w) user = Some u →
  ∃ self' w',
    set_password self user password w = (w', Ok (self', None))
    ∧ get (the_users self' w') user = Some (User_set_password u password)
    ∧ hash_password (User_set_password u password)
      = Sha256.hexdigest (Sha256.utf8 password).
Proof.
  intros Hget.
  destruct (update_users_the_users self
              (set (the_users self w) user (User_set_password u password)) w)
    as (self' & w' & Hupd & Husers & _).
  exists self', w'. split; [|split].
  - unfold set_password, self_users, gets, mbind, M_bind.
    rewrite Hget. by rewrite Hupd.
  - rewrite Husers. apply get_set_eq.
  - reflexivity.
Qed.

Lemma set_password_registered_witness :
  get (the_users sample_registry sample_users_state) "bob"
  = Some (User_set_password (User__init__ "off" "*" "@all" None) "secret")
  ∧ ∃ self' w',
      set_password sample_registry "bob" "hunter2" sample_users_state
      = (w', Ok (self', None))
      ∧ get (the_users self' w') "bob"
        = Some (User_set_password
                  (User_set_password (User__init__ "off" "*" "@all" None) "secret")
                  "hunter2")
      ∧ hash_password
          (User_set_password
             (User_set_password (User__init__ "off" "*" "@all" None) "secret")
             "hunter2")
        = Sha256.hexdigest (Sha256.utf8 "hunter2").
Proof.
  split; [reflexivity|].
  apply (set_password_registered sample_registry sample_users_state "bob" "hunter2").
  reflexivity.
Defined.

(** [get_user_dict] writes ["on"] for every user. *)
Lemma get_user_dict_status (u : User) :
  get (get_user_dict u).2 "status" = Some "on".
Proof. reflexivity. Qed.

(** C4: the sample file declares [bob] with status ["off"]; loading it and
    writing it back stores [bob] with status ["on"]; hash, keys and
    commands are written as loaded. *)
Theorem load_write_status :
  (files sample_users_state !! "redis.users") ≫= (λ d, get d "bob")
  = Some (sample_record "off")
  ∧ ((r ← __init__ "redis.users"; write r) sample_users_state).2
    = Ok {| filename := "redis.users";
            users := Some [("alice", User_set_password (User__init__ "on" "*" "@all" None) "secret");
                           ("bob", User_set_password (User__init__ "on" "*" "@all" None) "secret")] |}
  ∧ files ((r ← __init__ "redis.users"; write r) sample_users_state).1 !! "redis.users"
    = Some [("alice", [("commands", "@all");
                       ("hash_password", Sha256.hexdigest (Sha256.utf8 "secret"));
                       ("keys", "*"); ("status", "on")]);
            ("bob", [("commands", "@all");
                     ("hash_password", Sha256.hexdigest (Sha256.utf8 "secret"));
                     ("keys", "*"); ("status", "on")])].
Proof. split; [|split]; vm_compute; reflexivity. Qed.

(** C10: a [User] built without a password has the hash of the class,
    the SHA-256 hex digest of "password", and [get_user_dict] writes it;
    [add_user] without a password registers such a user. *)
Theorem default_password_hash (self : t) (w : State) (user status keys commands : string) :
  User_hash_password
  = "5e884898da28047151d0e56f8dc6292773603d0d6aabbdd62a11ef721d1542d8"
  ∧ hash_password (User__init__ status keys commands None) = User_hash_password
  ∧ get (get_user_dict (User__init__ status keys commands None)).2 "hash_password"
    = Some User_hash_password
  ∧ (get (the_users self w) user = None →
     ∃ self' w',
       add_user self user status keys commands None w = (w', Ok (self', true))
       ∧ get (the_users self' w') user
         = Some (User__init__ status keys commands None)).
Proof.
  split; [vm_compute; reflexivity|].
  split; [reflexivity|]. split; [reflexivity|].
  intros Hnew.
  destruct (update_users_the_users self
              (set (the_users self w) user (User__init__ status keys commands None)) w)
    as (self' & w' & Hupd & Husers & _).
  exists self', w'. split.
  - unfold add_user, self_users, gets, mbind, M_bind.
    apply mem_false in Hnew. rewrite Hnew. by rewrite Hupd.
  - rewrite Husers. apply get_set_eq.
Qed.

Lemma default_password_hash_witness :
  get (the_users sample_registry sample_users_state) "carol" = None
  ∧ ∃ self' w',
      add_user sample_registry "carol" "on" "*" "@all" None sample_users_state
      = (w', Ok (self', true))
      ∧ get (the_users self' w') "carol" = Some (User__init__ "on" "*" "@all" None).
Proof.
  split; [reflexivity|].
  apply (default_password_hash sample_registry sample_users_state
           "carol" "on" "*" "@all").
  reflexivity.
Defined.

End registry.

(** ** RedisUsers: reconciliation with the server *)

Section reconciliation.
Import Dict RedisUsers.

Lemma send_received (c : command) (w : State) :
  ∃ w', send c w = (w', Ok tt)
    ∧ received (db w') = (received (db w) ++ [c])%list
    ∧ class_users w' = class_users w ∧ files w' = files w.
Proof. eexists. split; [reflexivity|]. done. Qed.

Lemma create_loop (current_users : list string) (d : dict User) (w : State) :
  ∃ w',
    for_each (λ (kv : string * User) (_ : unit),
        let (user, data) := kv in
        if bool_decide (user ∉@{list string} current_users) then
          send (acl_setuser user ["+" ++ hash_password data]
                  (bool_decide (status data = "on")) (keys data)
                  ["+" ++ commands data])
        else mret tt) d tt w = (w', Ok tt)
    ∧ received (db w') = (received (db w) ++ creates current_users d)%list
    ∧ class_users w' = class_users w ∧ files w' = files w.
Proof.
  revert w. induction d as [|[user data] d IH]; intros w.
  - exists w. simpl. by rewrite app_nil_r.
  - cbn [for_each creates flat_map fst snd].
    unfold mbind at 1, M_bind at 1.
    case_bool_decide as Hin.
    + destruct (send_received
                  (acl_setuser user ["+" ++ hash_password data]
                     (bool_decide (status data = "on")) (keys data)
                     ["+" ++ commands data]) w)
        as (w1 & -> & Hrec & Hcls & Hfiles).
      destruct (IH w1) as (w' & -> & Hrec' & Hcls' & Hfiles').
      exists w'. split; [done|].
      rewrite Hrec', Hrec, Hcls', Hcls, Hfiles', Hfiles.
      by rewrite <- app_assoc.
    + destruct (IH w) as (w' & Hrun & Hrec' & Hcls' & Hfiles').
      exists w'. split; [exact Hrun|]. done.
Qed.

Lemma delete_loop (d : dict User) (current_users : list string) (w : State) :
  ∃ w',
    for_each (λ (user : string) (_ : unit),
        if negb (mem d user) then send (acl_deluser user) else mret tt)
      current_users tt w = (w', Ok tt)
    ∧ received (db w') = (received (db w) ++ deletes current_users d)%list
    ∧ class_users w' = class_users w ∧ files w' = files w.
Proof.
  revert w. induction current_users as [|user rest IH]; intros w.
  - exists w. simpl. by rewrite app_nil_r.
  - cbn [for_each deletes flat_map].
    unfold mbind at 1, M_bind at 1.
    destruct (mem d user) eqn:Hmem; cbn [negb].
    + destruct (IH w) as (w' & Hrun & Hrec' & Hcls' & Hfiles').
      exists w'. split; [exact Hrun|]. done.
    + destruct (send_received (acl_deluser user) w)
        as (w1 & -> & Hrec & Hcls & Hfiles).
      destruct (IH w1) as (w' & -> & Hrec' & Hcls' & Hfiles').
      exists w'. split; [done|].
      rewrite Hrec', Hrec, Hcls', Hcls, Hfiles', Hfiles.
      by rewrite <- app_assoc.
Qed.

(** One pass sends the creations, then the deletions, and nothing else;
    it changes neither the registry nor the files. *)
Lemma apply_to_redis_received (self : t) (w : State) :
  ∃ w',
    apply_to_redis self w = (w', Ok tt)
    ∧ received (db w')
      = (received (db w) ++ creates (acl_users (db w)) (the_users self w)
         ++ deletes (acl_users (db w)) (the_users self w))%list
    ∧ class_users w' = class_users w ∧ files w' = files w.
Proof.
  unfold apply_to_redis, self_users, gets.
  unfold mbind at 1 2 3, M_bind at 1 2 3.
  destruct (create_loop (acl_users (db w)) (the_users self w) w)
    as (w1 & -> & Hrec & Hcls & Hfiles).
  destruct (delete_loop (the_users self w) (acl_users (db w)) w1)
    as (w' & -> & Hrec' & Hcls' & Hfiles').
  exists w'. split; [done|].
  rewrite Hrec', Hrec, Hcls', Hcls, Hfiles', Hfiles.
  by rewrite <- app_assoc.
Qed.

Lemma two_keys (d : dict User) (a b : string) :
  d.*1 ≡ₚ [a; b] →
  ∃ ua ub, d = [(a, ua); (b, ub)] ∨ d = [(b, ub); (a, ua)].
Proof.
  intros Hperm. symmetry in Hperm.
  apply Permutation_length_2_inv in Hperm as [Hd|Hd];
    destruct d as [|[k1 u1] [|[k2 u2] [|? ?]]]; simplify_eq/=.
  - exists u1, u2. by left.
  - exists u2, u1. by right.
Qed.

(** C5: with the users [a] and [b] declared and the users [b] and [c]
    listed by the server, one pass sends exactly two commands: the
    creation of [a], with "+" before the stored hash, the flag
    [status == "on"], the key pattern and "+" before the command pattern,
    and the deletion of [c]. *)
Theorem apply_to_redis_difference (self : t) (w : State) (a b c : string) :
  a ≠ b → a ≠ c → b ≠ c →
  (the_users self w).*1 ≡ₚ [a; b] →
  acl_users (db w) ≡ₚ [b; c] →
  ∃ ua w',
    get (the_users self w) a = Some ua
    ∧ apply_to_redis self w = (w', Ok tt)
    ∧ received (db w')
      = (received (db w)
         ++ [acl_setuser a [("+" ++ hash_password ua)%string]
               (bool_decide (status ua = "on")) (keys ua)
               [("+" ++ commands ua)%string];
             acl_deluser c])%list.
Proof.
  intros Hab Hac Hbc Hdecl Hlive.
  destruct (apply_to_redis_received self w) as (w' & Hrun & Hrec & _).
  destruct (two_keys _ _ _ Hdecl) as (ua & ub & Hd).
  exists ua, w'.
  symmetry in Hlive. apply Permutation_length_2_inv in Hlive.
  rewrite Hrec. clear Hrec.
  assert (Hget : get (the_users self w) a = Some ua).
  { destruct Hd as [-> | ->]; simpl.
    - by rewrite decide_True.
    - rewrite decide_False by done. by rewrite decide_True. }
  split; [exact Hget|]. split; [exact Hrun|]. f_equal.
  assert (Ha : ∀ l : list string, l = [b; c] ∨ l = [c; b] → a ∉ l).
  { intros l [-> | ->]; rewrite !elem_of_cons, elem_of_nil; intuition congruence. }
  assert (Hb : ∀ l : list string, l = [b; c] ∨ l = [c; b] → ¬ (b ∉ l)).
  { intros l [-> | ->] Hnot; apply Hnot; rewrite !elem_of_cons; auto. }
  assert (Hcb : c ≠ b) by done. assert (Hca : c ≠ a) by done.
  assert (Hba : b ≠ a) by done.
  destruct Hd as [-> | ->]; unfold creates; cbn [flat_map fst snd];
    rewrite (bool_decide_eq_true_2 _ (Ha _ Hlive)),
            (bool_decide_eq_false_2 _ (Hb _ Hlive));
    destruct Hlive as [-> | ->]; unfold deletes; cbn [flat_map];
    rewrite !mem_cons, !mem_nil;
    rewrite ?(bool_decide_eq_true_2 (a = a)), ?(bool_decide_eq_true_2 (b = b)),
            ?(bool_decide_eq_false_2 (a = b)), ?(bool_decide_eq_false_2 (b = a)),
            ?(bool_decide_eq_false_2 (a = c)), ?(bool_decide_eq_false_2 (b = c))
      by done;
    reflexivity.
Qed.

Lemma apply_to_redis_difference_witness :
  ∃ ua w',
    get (the_users sample_registry sample_live_state) "alice" = Some ua
    ∧ apply_to_redis sample_registry sample_live_state = (w', Ok tt)
    ∧ received (db w')
      = [acl_setuser "alice" [("+" ++ hash_password ua)%string]
           (bool_decide (status ua = "on")) (keys ua)
           [("+" ++ commands ua)%string];
         acl_deluser "carol"].
Proof.
  apply (apply_to_redis_difference sample_registry sample_live_state
           "alice" "bob" "carol"); try discriminate; reflexivity.
Defined.

End reconciliation.

(** ** Instances and the state of their class *)

(** C2: two stores read from two files share one entry order: after the
    second construction it lists the key of the first file too, and
    [write] on either store raises [KeyError] for the key of the other
    file.  Two registries whose files do not exist share one dict: a user
    added to the first is a user of the second. *)
Theorem instances_share_class_state :
  RedisConfig.entry_order (RedisConfig.__init__ "a.conf" two_confs).1 = ["x"]
  ∧ RedisConfig.entry_order
      ((c1 ← RedisConfig.__init__ "a.conf";
        RedisConfig.__init__ "b.conf") two_confs).1 = ["x"; "y"]
  ∧ ((c1 ← RedisConfig.__init__ "a.conf";
      c2 ← RedisConfig.__init__ "b.conf";
      RedisConfig.write c2) two_confs).2 = Raise (KeyError "x")
  ∧ ((c1 ← RedisConfig.__init__ "a.conf";
      c2 ← RedisConfig.__init__ "b.conf";
      RedisConfig.write c1) two_confs).2 = Raise (KeyError "y")
  ∧ ((u1 ← RedisUsers.__init__ "one.users";
      u2 ← RedisUsers.__init__ "two.users";
      before ← RedisUsers.self_users u2;
      r ← RedisUsers.add_user u1 "carol" "on" "*" "@all" None;
      after ← RedisUsers.self_users u2;
      mret (before, after)) no_users_files).2
    = Ok ([], [("carol", RedisUsers.User__init__ "on" "*" "@all" None)]).
Proof. repeat split; vm_compute; reflexivity. Qed.

(** ** Strings *)

Section strings.

Lemma append_nil_l (a : string) : EmptyString ++ a = a.
Proof. reflexivity. Qed.

Lemma append_cons (x : ascii) (a b : string) : String x a ++ b = String x (a ++ b).
Proof. reflexivity. Qed.

Lemma append_assoc (a b c : string) : (a ++ b) ++ c = a ++ b ++ c.
Proof.
  induction a as [|x a IH]; [done|]. by rewrite !append_cons, IH.
Qed.

Lemma append_nil_r (a : string) : a ++ EmptyString = a.
Proof.
  induction a as [|x a IH]; [done|]. by rewrite append_cons, IH.
Qed.

Lemma append_eq_nil (a b : string) : a ++ b = EmptyString → b = EmptyString.
Proof. destruct a; [done|]. by rewrite append_cons. Qed.

Lemma drop_last_cons (x : ascii) (s : string) :
  s ≠ EmptyString → drop_last (String x s) = String x (drop_last s).
Proof. by destruct s. Qed.

Lemma drop_last_append (a b : string) :
  b ≠ EmptyString → drop_last (a ++ b) = a ++ drop_last b.
Proof.
  intros Hb. induction a as [|x a IH]; [done|].
  rewrite !append_cons, drop_last_cons, IH; [done|].
  intros Hab. by apply append_eq_nil in Hab.
Qed.

Lemma drop_last_append_NL (s : string) : drop_last (s ++ NL) = s.
Proof. rewrite drop_last_append by done. apply append_nil_r. Qed.

Lemma split_not_nil (sep : ascii) (s : string) : split sep s ≠ [].
Proof.
  destruct s as [|c s]; simpl; [done|].
  destruct (Ascii.eqb c sep); [done|]. by destruct (split sep s).
Qed.

Lemma unlines_split (text : string) :
  Canonical.unlines (split nl text) = text ++ NL.
Proof.
  induction text as [|c text IH]; [done|].
  cbn [split]. destruct (Ascii.eqb c nl) eqn:Hc.
  - apply Ascii.eqb_eq in Hc as ->. cbn [Canonical.unlines]. by rewrite IH.
  - destruct (split nl text) as [|hd tl] eqn:Hsplit.
    + by apply split_not_nil in Hsplit.
    + cbn [Canonical.unlines] in *. by rewrite !append_cons, IH.
Qed.

Lemma lstrip_nonspace (c : ascii) (s : string) :
  isspace c = false → lstrip (String c s) = String c s.
Proof. intros Hc. simpl. by rewrite Hc. Qed.

Lemma span_token_append (s k r : string) :
  span_token s = (k, r) → s = k ++ r.
Proof.
  revert k r. induction s as [|c s IH]; intros k r; simpl.
  - by intros [= <- <-].
  - destruct (isspace c); [by intros [= <- <-]|].
    destruct (span_token s) as [t r'] eqn:Hs. intros [= <- <-].
    by rewrite append_cons, <- (IH t r').
Qed.

Lemma span_token_head (s k r : string) (c : ascii) :
  span_token s = (String c k, r) → ∃ s', s = String c s' ∧ isspace c = false.
Proof.
  destruct s as [|c0 s]; simpl; [done|].
  destruct (isspace c0) eqn:Hc0; [done|].
  destruct (span_token s). intros [= -> _ _]. eauto.
Qed.

(** A line that [cut] accepts is the key, a space and the value, and
    [split(maxsplit=1)] finds that key and that value. *)
Lemma cut_Some (s k v : string) :
  Canonical.cut s = Some (k, v) →
  s = k ++ " " ++ v ∧ split_maxsplit1 s = [k; v].
Proof.
  unfold Canonical.cut.
  destruct (span_token s) as [[|c k0] r] eqn:Hspan; [done|].
  destruct r as [|sp [|c' v0]]; [done..|].
  destruct (Ascii.eqb sp " ") eqn:Hsp; [|done].
  destruct (isspace c') eqn:Hc'; [done|]. simpl.
  intros [= <- <-]. apply Ascii.eqb_eq in Hsp as ->.
  split; [by apply span_token_append|].
  destruct (span_token_head _ _ _ _ Hspan) as (s' & -> & Hc).
  unfold split_maxsplit1. rewrite (lstrip_nonspace _ _ Hc), Hspan.
  replace (lstrip (String " " (String c' v0))) with (String c' v0); [done|].
  simpl. by rewrite Hc'.
Qed.

End strings.

(** ** RedisConfig: parse, then write *)

Section roundtrip.
Import RedisConfig Canonical.

Implicit Types (E : gmap string value) (C : gmap string string).
Implicit Types (p line : string) (w : State).

Lemma appended_nil w : appended w [] = w.
Proof. destruct w. unfold appended; simpl. by rewrite app_nil_r. Qed.

Lemma appended_cons w k ks : appended (appended w [k]) ks = appended w (k :: ks).
Proof. unfold appended; simpl. by rewrite <- app_assoc. Qed.

Lemma parse_line_comment line E C p w :
  is_entry_line line = false →
  parse_line line (E, C, p) w = (w, Ok (E, C, p ++ line ++ NL)).
Proof. intros Hline. unfold parse_line. by rewrite Hline. Qed.

Lemma parse_line_first line k v E C p w :
  is_entry_line line = true →
  split_maxsplit1 line = [k; v] →
  E !! k = None →
  parse_line line (E, C, p) w
  = (appended w [k], Ok (<[k := VStr v]> E, <[k := p]> C, EmptyString)).
Proof.
  intros Hline Hsplit Hnew. unfold parse_line. rewrite Hline, Hsplit.
  unfold mbind, M_bind, lift; cbn.
  rewrite decide_False; [done|].
  rewrite Hnew. by intros [? ?].
Qed.

Lemma parse_line_repeated line k v q v' E C p w :
  is_entry_line line = true →
  split_maxsplit1 line = [k; v] →
  is_Some (E !! k) →
  split_maxsplit1 v = [q; v'] →
  parse_line line (E, C, p) w
  = (appended w [k ++ " " ++ q],
     Ok (<[k ++ " " ++ q := VStr v']> E, <[k ++ " " ++ q := p]> C, EmptyString)).
Proof.
  intros Hline Hsplit Hold Hsub. unfold parse_line. rewrite Hline, Hsplit.
  unfold mbind, M_bind, lift; cbn.
  rewrite decide_True by done. by rewrite Hsub.
Qed.

Lemma last_cons_cons {A} (x y : A) (l : list A) (d : A) :
  List.last (x :: y :: l) d = List.last (y :: l) d.
Proof. reflexivity. Qed.

(** What one accepted entry line does, whichever of the two shapes it
    has: a key that is new, the pending comments filed under it. *)
Lemma parse_line_canonical line E C p w rest :
  is_entry_line line = true →
  canonical_lines (dom E) (line :: rest) = true →
  ∃ key val,
    line = key ++ " " ++ val
    ∧ E !! key = None
    ∧ parse_line line (E, C, p) w
      = (appended w [key], Ok (<[key := VStr val]> E, <[key := p]> C, EmptyString))
    ∧ canonical_lines (dom (<[key := VStr val]> E)) rest = true.
Proof.
  intros Hline. cbn [canonical_lines]. rewrite Hline.
  destruct (cut line) as [[k v]|] eqn:Hcut; [|done].
  destruct (cut_Some _ _ _ Hcut) as [-> Hsplit].
  case_bool_decide as Hseen.
  - destruct (cut v) as [[q v']|] eqn:Hcut'; [|done].
    destruct (cut_Some _ _ _ Hcut') as [-> Hsub].
    intros [Hnew%bool_decide_eq_true Hrest]%andb_true_iff.
    exists (k ++ " " ++ q), v'. split; [by rewrite !append_assoc|].
    apply not_elem_of_dom in Hnew. split; [exact Hnew|].
    split; [|by rewrite dom_insert_L].
    apply parse_line_repeated with (v := q ++ " " ++ v'); try done.
    by apply elem_of_dom.
  - intros Hrest. exists k, v. split; [done|].
    apply not_elem_of_dom in Hseen. split; [exact Hseen|].
    split; [|by rewrite dom_insert_L].
    by apply parse_line_first.
Qed.

(** The loop of [parse] over canonical lines: the keys [ks] it appends to
    the entry order are bound in the maps it returns, the entries bound
    before keep their value and their comments, and what [write] emits for
    [ks], followed by the comments still pending, is what was pending
    before, followed by the lines. *)
Lemma parse_lines_canonical lines : ∀ E C p w,
  canonical_lines (dom E) lines = true →
  ∃ E' C' p' ks body,
    for_each parse_line lines (E, C, p) w = (appended w ks, Ok (E', C', p'))
    ∧ (∀ k, is_Some (E !! k) → E' !! k = E !! k ∧ C' !! k = C !! k)
    ∧ (∀ self out, entries self = E' → comments self = C' →
         write_entries self ks out = (out ++ body, Ok tt))
    ∧ body ++ p' = p ++ unlines lines
    ∧ (lines = [] → p' = p)
    ∧ (lines ≠ [] →
       if is_entry_line (List.last lines EmptyString) then p' = EmptyString
       else p' ≠ EmptyString).
Proof.
  induction lines as [|line rest IH]; intros E C p w Hcanon.
  - exists E, C, p, [], EmptyString. rewrite appended_nil.
    split; [done|]. split; [done|].
    split; [intros; by rewrite append_nil_r|].
    split; [by rewrite append_nil_r|done].
  - assert (Hpending : ∀ q, q ++ line ++ NL ≠ EmptyString).
    { intros q Hq. by do 2 apply append_eq_nil in Hq. }
    cbn [for_each]. unfold mbind at 1, M_bind at 1.
    destruct (is_entry_line line) eqn:Hline.
    + destruct (parse_line_canonical line E C p w rest Hline Hcanon)
        as (key & val & -> & Hnew & -> & Hrest).
      destruct (IH _ (<[key := p]> C) EmptyString (appended w [key]) Hrest)
        as (E' & C' & p' & ks & body & -> & Hkeep & Hwrite & Hbody & Hnil & Hlast).
      assert (Hkey : is_Some (<[key := VStr val]> E !! key))
        by (rewrite lookup_insert_eq; eauto).
      destruct (Hkeep key Hkey) as [HE' HC'].
      rewrite lookup_insert_eq in HE'. rewrite lookup_insert_eq in HC'.
      exists E', C', p', (key :: ks), (p ++ key ++ " " ++ val ++ NL ++ body).
      rewrite appended_cons. split; [done|]. split; [|split; [|split; [|split]]].
      * intros k Hk.
        assert (Hne : key ≠ k) by (intros ->; rewrite Hnew in Hk; by destruct Hk).
        destruct (Hkeep k) as [-> ->].
        { by rewrite lookup_insert_ne. }
        by rewrite !lookup_insert_ne.
      * intros self out HE HC. cbn [write_entries].
        rewrite HC, HC', HE, HE'. rewrite (Hwrite self _ HE HC).
        cbn [str]. by rewrite !append_assoc.
      * cbn [unlines]. rewrite append_nil_l in Hbody.
        by rewrite !append_assoc, Hbody.
      * done.
      * intros _. destruct rest as [|line' rest].
        { cbn [List.last]. rewrite Hline. by apply Hnil. }
        rewrite last_cons_cons. by apply Hlast.
    + rewrite parse_line_comment by done.
      cbn [canonical_lines] in Hcanon. rewrite Hline in Hcanon.
      destruct (IH E C (p ++ line ++ NL) w Hcanon)
        as (E' & C' & p' & ks & body & -> & Hkeep & Hwrite & Hbody & Hnil & Hlast).
      exists E', C', p', ks, body.
      split; [done|]. split; [done|]. split; [done|]. split; [|split].
      * cbn [unlines]. by rewrite Hbody, !append_assoc.
      * done.
      * intros _. destruct rest as [|line' rest].
        { cbn [List.last]. rewrite Hline, Hnil by done. apply Hpending. }
        rewrite last_cons_cons. by apply Hlast.
Qed.

(** A text without carriage returns is read as it is. *)
Lemma universal_newlines_no_cr (text : string) :
  no_cr text = true → universal_newlines text = text.
Proof.
  unfold universal_newlines. induction text as [|c text IH]; [done|].
  cbn [no_cr translate_newlines].
  intros [Hc%negb_true_iff Hrest]%andb_true_iff.
  by rewrite Hc, andb_false_r, IH.
Qed.

(** The round trip on canonical lines, whatever the last line is: the
    text as it was read comes back, with one newline more when the last
    line is an entry line. *)
Lemma write_parse_canonical_lines (fname stored : string) w :
  let text := universal_newlines stored in
  files w !! fname = Some stored →
  entry_order w = [] →
  canonical_lines ∅ (split nl text) = true →
  ∃ ks,
    (cfg ← __init__ fname; write cfg) w
    = ({| files :=
            <[fname := if is_entry_line (List.last (split nl text) EmptyString)
                       then text ++ NL else text]> (files w);
          entry_order := ks |}, Ok tt).
Proof.
  intros text Hfile Horder Hcanon.
  rewrite <- (dom_empty_L (D := gset string) (M := gmap string) (A := value)) in Hcanon.
  destruct (parse_lines_canonical _ ∅ ∅ EmptyString w Hcanon)
    as (E' & C' & p' & ks & body & Hloop & _ & Hwrite & Hbody & _ & Hlast).
  exists ks.
  unfold __init__, parse, read. cbn [filename changed].
  unfold mbind at 1 2 3, M_bind at 1 2 3. rewrite Hfile. fold text.
  rewrite Hloop.
  unfold mret, M_ret, write. cbn [entry_order appended filename files].
  rewrite Horder, app_nil_l.
  erewrite Hwrite by reflexivity.
  cbn [trailing_comments]. do 3 f_equal.
  rewrite !append_nil_l, unlines_split in *.
  specialize (Hlast (split_not_nil _ _)).
  destruct (is_entry_line (List.last (split nl text) EmptyString)).
  - subst p'. rewrite append_nil_r in Hbody. by rewrite Hbody, append_nil_r.
  - rewrite <- (drop_last_append_NL text), <- Hbody.
    by rewrite drop_last_append.
Qed.

Lemma roundtrip_holds_intro (text : string) :
  no_cr text = true →
  canonical_lines ∅ (split nl text) = true →
  is_entry_line (List.last (split nl text) EmptyString) = false →
  roundtrip_holds text.
Proof.
  intros Hcr Hcanon Hlast fname w Hfile Horder.
  pose proof (write_parse_canonical_lines fname text w Hfile Horder) as Hrun.
  cbn zeta in Hrun. rewrite (universal_newlines_no_cr _ Hcr) in Hrun.
  destruct (Hrun Hcanon) as (ks & ->).
  eexists. split; [done|].
  cbn [files]. rewrite Hlast. apply lookup_insert_eq.
Qed.

(** C1, amended: a canonical text (no carriage return in it), read into
    the first store of the process and written back at once, is in the
    file again, character for character. *)
Theorem write_parse_canonical (text : string) :
  canonical text = true → roundtrip_holds text.
Proof.
  unfold canonical.
  intros [[Hcr Hcanon]%andb_true_iff Hlast%negb_true_iff]%andb_true_iff.
  by apply roundtrip_holds_intro.
Qed.

Lemma write_parse_canonical_witness :
  canonical sample_conf = true ∧ roundtrip_holds sample_conf.
Proof.
  assert (H : canonical sample_conf = true) by (vm_compute; reflexivity).
  split; [exact H|]. exact (write_parse_canonical sample_conf H).
Defined.

Lemma roundtrip_holds_written (text : string) :
  roundtrip_holds text → written text = (Some text, Ok tt).
Proof.
  intros H. unfold written.
  destruct (H "redis.conf" (fresh "redis.conf" text)) as (w' & -> & Hfile).
  - apply lookup_singleton_eq.
  - done.
  - by rewrite Hfile.
Qed.

(** Two spaces after the key come back as one. *)
Example written_two_spaces :
  written ("bind  127.0.0.1" ++ NL) = (Some ("bind 127.0.0.1" ++ NL), Ok tt).
Proof. vm_compute. reflexivity. Qed.

(** A key without a value stops [parse] with [IndexError]. *)
Example written_no_value :
  written ("daemonize" ++ NL) = (Some ("daemonize" ++ NL), Raise IndexError).
Proof. vm_compute. reflexivity. Qed.

(** A last entry line without a newline comes back with one. *)
Example written_no_final_newline :
  written "port 6379" = (Some ("port 6379" ++ NL), Ok tt).
Proof. vm_compute. reflexivity. Qed.

(** A third line with the key and the qualifier of the second comes back
    in place of the second, too. *)
Example written_repeated_qualifier :
  written (save_lines ++ "save 300 20" ++ NL)
  = (Some ("save 900 1" ++ NL ++ "save 300 20" ++ NL ++ "save 300 20" ++ NL), Ok tt).
Proof. vm_compute. reflexivity. Qed.

(** Lines that end with a carriage return and a newline come back with
    the newline only. *)
Example written_crlf :
  written crlf_conf
  = (Some ("bind 127.0.0.1" ++ NL ++ "port 6379" ++ NL), Ok tt).
Proof. vm_compute. reflexivity. Qed.

(** C1 as stated fails on five texts: one with two spaces between key and
    value, one with a key that has no value, one whose last line is an
    entry line without a final newline, one where a composite key comes
    twice, one whose lines end with a carriage return and a newline. *)
Lemma write_parse_not_identity :
  ¬ roundtrip_holds ("bind  127.0.0.1" ++ NL)
  ∧ ¬ roundtrip_holds ("daemonize" ++ NL)
  ∧ ¬ roundtrip_holds "port 6379"
  ∧ ¬ roundtrip_holds (save_lines ++ "save 300 20" ++ NL)
  ∧ ¬ roundtrip_holds crlf_conf.
Proof.
  split; [|split; [|split; [|split]]]; intros H%roundtrip_holds_written.
  - rewrite written_two_spaces in H. discriminate H.
  - rewrite written_no_value in H. discriminate H.
  - rewrite written_no_final_newline in H. discriminate H.
  - rewrite written_repeated_qualifier in H. discriminate H.
  - rewrite written_crlf in H. discriminate H.
Qed.

(** C6: in the first store of a process, [save 900 1] followed by
    [save 300 10] gives the entries [save] with value [900 1] and
    [save 300] with value [10], and the text goes through the round trip
    unchanged.  In a store built after another one the entries are the
    same, but the round trip is lost: after a store for another file,
    [write] raises [KeyError] for the key of that file and leaves the
    file empty; after a store for the same file, [write] writes every
    line twice. *)
Theorem save_lines_second_store :
  (∃ cfg, (__init__ "redis.conf" (fresh "redis.conf" save_lines)).2 = Ok cfg
          ∧ entries cfg = {[ "save" := VStr "900 1"; "save 300" := VStr "10" ]})
  ∧ roundtrip_holds save_lines
  ∧ (∃ cfg, ((c1 ← __init__ "a.conf"; __init__ "redis.conf") save_after_other).2
            = Ok cfg
            ∧ entries cfg = {[ "save" := VStr "900 1"; "save 300" := VStr "10" ]})
  ∧ ((c1 ← __init__ "a.conf"; c2 ← __init__ "redis.conf"; write c2)
       save_after_other).2 = Raise (KeyError "x")
  ∧ files ((c1 ← __init__ "a.conf"; c2 ← __init__ "redis.conf"; write c2)
             save_after_other).1 !! "redis.conf" = Some EmptyString
  ∧ ((c1 ← __init__ "redis.conf"; c2 ← __init__ "redis.conf"; write c2)
       (fresh "redis.conf" save_lines)).2 = Ok tt
  ∧ files ((c1 ← __init__ "redis.conf"; c2 ← __init__ "redis.conf"; write c2)
             (fresh "redis.conf" save_lines)).1 !! "redis.conf"
    = Some (save_lines ++ save_lines).
Proof.
  split; [|split; [|split; [|split; [|split; [|split]]]]].
  - eexists. split; vm_compute; reflexivity.
  - apply roundtrip_holds_intro; vm_compute; reflexivity.
  - eexists. split; vm_compute; reflexivity.
  - vm_compute. reflexivity.
  - vm_compute. reflexivity.
  - vm_compute. reflexivity.
  - vm_compute. reflexivity.
Qed.

End roundtrip.

(** * Further properties *)

(** ** The validators, in full *)

Section validators.

Lemma int_raises (s : string) (e : exn) : int s = Raise e → e = ValueError.
Proof.
  unfold int. intros Hraise.
  repeat match type of Hraise with
         | context [match ?x with _ => _ end] => destruct x
         end; congruence.
Qed.

Lemma valid_ipv4_parts_literals (arr : list string) :
  valid_ipv4_parts arr
  = if forallb is_int_literal arr then Ok true else Raise ValueError.
Proof.
  induction arr as [|i rest IH]; [done|].
  cbn [valid_ipv4_parts forallb]. unfold is_int_literal at 1.
  destruct (int i) as [n|e] eqn:Hi; simpl.
  - destruct (n <? 0) eqn:Hneg; [|exact IH].
    destruct (255 <? n) eqn:Hbig; [|exact IH].
    apply Z.ltb_lt in Hneg, Hbig. lia.
  - by rewrite (int_raises _ _ Hi).
Qed.

(** X1: [valid_ipv4] answers [False] for the empty string and for a
    string that does not have four parts between dots, and for nothing
    else. *)
Theorem valid_ipv4_false_iff (ip : string) :
  valid_ipv4 ip = Ok false ↔ ip = EmptyString ∨ length (split "." ip) ≠ 4%nat.
Proof.
  unfold valid_ipv4.
  destruct (decide (ip = EmptyString)) as [->|Hne]; [by split; auto|].
  destruct (decide (length (split "." ip) ≠ 4%nat)) as [Hlen|Hlen];
    [by split; auto|].
  rewrite valid_ipv4_parts_literals.
  split; [by destruct (forallb _ _)|]. by intros [?|?].
Qed.

(** X2: on a string with four parts, [valid_ipv4] answers [True] when
    every part is an integer literal, whatever its value, and raises
    [ValueError] otherwise. *)
Theorem valid_ipv4_four_parts (ip : string) :
  length (split "." ip) = 4%nat →
  valid_ipv4 ip
  = if forallb is_int_literal (split "." ip) then Ok true else Raise ValueError.
Proof.
  intros Hlen. unfold valid_ipv4.
  destruct (decide (ip = EmptyString)) as [->|Hne]; [done|].
  rewrite decide_False by (by intros ?).
  apply valid_ipv4_parts_literals.
Qed.

Lemma valid_ipv4_four_parts_witness :
  valid_ipv4 "-7.1_000.+3.256" = Ok true
  ∧ valid_ipv4 "10.0.0.x" = Raise ValueError.
Proof.
  split.
  - exact (valid_ipv4_four_parts "-7.1_000.+3.256" eq_refl).
  - exact (valid_ipv4_four_parts "10.0.0.x" eq_refl).
Defined.

End validators.

(** ** RedisConfig: every setter *)

Section all_setters.
Import RedisConfig.

Lemma dom_bound (self : t) (key : string) (v : value) :
  is_Some (entries self !! key) →
  dom (entries (bound self key v)) = dom (entries self).
Proof.
  intros Hkey. cbn [bound entries]. by apply dom_insert_lookup_L.
Qed.

Lemma set_config_value_edits_only (self : t) (key : string) (v : value) :
  edits_only self (set_config_value self key v).
Proof.
  unfold set_config_value, edits_only.
  destruct (entries self !! key) as [old|] eqn:Hkey; cbn [fst snd]; [|done].
  split; [done|]. split; [|done]. apply dom_bound. by rewrite Hkey.
Qed.

Lemma edits_only_checked (self : t) (r : t * bool) :
  edits_only self r →
  edits_only self (let (self', done) := r in
                   if done then (self', true) else (self', false)).
Proof. by destruct r as [self' [|]]. Qed.

Lemma edits_only_false (self : t) : edits_only self (self, false).
Proof. done. Qed.

(** X3: the setters with a validation answer [False] only with the store
    untouched, and [True] only with [changed] set and the keys, the
    comments and the file name as before: none of them adds or removes an
    entry.  Where a setter raises, nothing is said. *)
Theorem setters_edit_only (exists_ : string → bool) (self : t)
    (key : string) (arg : option string) (n : value) :
  edits_only self (set_config_value self key n)
  ∧ (∀ r, set_ip_address self arg = Ok r → edits_only self r)
  ∧ (∀ r, set_port self n = Ok r → edits_only self r)
  ∧ edits_only self (set_directory exists_ self arg)
  ∧ (∀ r, set_snapshot_seconds self n = Returns r → edits_only self r)
  ∧ (∀ r, set_snapshot_changes self n = Returns r → edits_only self r)
  ∧ edits_only self (set_snapshot_file self arg)
  ∧ edits_only self (set_append_mode self arg)
  ∧ edits_only self (set_append_file self arg).
Proof.
  assert (Hsnap : ∀ i r, set_snapshot_at i self n = Returns r → edits_only self r).
  { intros i r. unfold set_snapshot_at.
    destruct n; [by intros [= <-]|..];
      (destruct (get_config_value self "save"); [by intros [= <-]|..];
       (destruct (value_split _); [|done];
        destruct (setitem _ _ _) as [words|]; [|done];
        pose proof (set_config_value_edits_only self "save" (VStr (join " " words))) as H;
        destruct (set_config_value self "save" _) as [self' [|]];
        by intros [= <-])). }
  split; [apply set_config_value_edits_only|].
  split.
  { intros r. unfold set_ip_address. destruct arg as [ip|]; [|by intros [= <-]].
    destruct (valid_ipv4 ip) as [[|]|]; simpl; [|by intros [= <-]|done].
    pose proof (set_config_value_edits_only self "bind" (VStr ip)) as H.
    destruct (set_config_value self "bind" _) as [self' [|]]; by intros [= <-]. }
  split.
  { intros r. unfold set_port.
    destruct n as [|p|s]; [by intros [= <-]| |done].
    destruct (valid_port (VInt p)) as [[|]|]; simpl; [|by intros [= <-]|done].
    pose proof (set_config_value_edits_only self "port" (VInt p)) as H.
    destruct (set_config_value self "port" _) as [self' [|]]; by intros [= <-]. }
  split.
  { unfold set_directory. destruct arg as [d|]; [|done].
    destruct (exists_ d); [|done].
    apply edits_only_checked, set_config_value_edits_only. }
  split; [apply Hsnap|]. split; [apply Hsnap|].
  split.
  { unfold set_snapshot_file. destruct arg as [f|]; [|done].
    apply edits_only_checked, set_config_value_edits_only. }
  split.
  { unfold set_append_mode. destruct arg as [m|]; [|done].
    case_bool_decide; [|done].
    apply edits_only_checked, set_config_value_edits_only. }
  unfold set_append_file. destruct arg as [f|]; [|done].
  apply edits_only_checked, set_config_value_edits_only.
Qed.

(** X4: after a successful [set_config_value], [get_config_value] gives
    the new value for that key and the old value for every other key. *)
Theorem get_after_set (self self' : t) (key : string) (v : value) :
  set_config_value self key v = (self', true) →
  get_config_value self' key = v
  ∧ (∀ k, k ≠ key → get_config_value self' k = get_config_value self k)
  ∧ changes_made self' = true.
Proof.
  unfold set_config_value. destruct (entries self !! key); [|done].
  intros [= <-]. unfold get_config_value, bound; cbn.
  split; [by rewrite lookup_insert_eq|]. split; [|done].
  intros k Hk. by rewrite lookup_insert_ne.
Qed.

Lemma get_after_set_witness :
  get_config_value (bound snapshot_store "appendfsync" (VStr "always")) "appendfsync"
  = VStr "always"
  ∧ (∀ k, k ≠ "appendfsync" →
       get_config_value (bound snapshot_store "appendfsync" (VStr "always")) k
       = get_config_value snapshot_store k)
  ∧ changes_made (bound snapshot_store "appendfsync" (VStr "always")) = true.
Proof.
  exact (get_after_set snapshot_store _ "appendfsync" (VStr "always") eq_refl).
Defined.

(** X5: [set_password] answers [True] for every string; the store is the
    one with [requirepass] rebound when that key is there, and the very
    same store when it is not. *)
Theorem set_password_always_true (self : t) (password : string) :
  set_password self (Some password)
  = (if decide (is_Some (entries self !! "requirepass"))
     then bound self "requirepass" (VStr password) else self, true).
Proof.
  unfold set_password, set_config_value.
  destruct (entries self !! "requirepass") as [old|] eqn:Hkey.
  - by rewrite decide_True by eauto.
  - rewrite decide_False; [done|]. by intros [? ?].
Qed.

(** X6: [set_append_mode] takes a mode exactly when it is one of
    [always], [everysec] and [no] and the store has the key
    [appendfsync]; then the key is rebound to the mode. *)
Theorem set_append_mode_valid (self : t) (mode : string) :
  set_append_mode self (Some mode)
  = if bool_decide ((mode = "always" ∨ mode = "everysec" ∨ mode = "no")
                    ∧ is_Some (entries self !! "appendfsync"))
    then (bound self "appendfsync" (VStr mode), true)
    else (self, false).
Proof.
  unfold set_append_mode, valid_modes, set_config_value.
  assert (Hmodes : mode ∈ ["always"; "everysec"; "no"]
                   ↔ mode = "always" ∨ mode = "everysec" ∨ mode = "no").
  { rewrite !elem_of_cons, elem_of_nil. tauto. }
  case_bool_decide as Hin.
  - destruct (entries self !! "appendfsync") as [old|] eqn:Hkey.
    + rewrite bool_decide_eq_true_2; [done|]. split; [by apply Hmodes|eauto].
    + rewrite bool_decide_eq_false_2; [done|]. by intros [_ [? ?]].
  - rewrite bool_decide_eq_false_2; [done|]. intros [? _]. by apply Hin, Hmodes.
Qed.

End all_setters.

(** ** RedisConfig: the snapshot setters *)

Section snapshot.
Import RedisConfig.

Lemma split_ws_space (c : ascii) (s : string) :
  isspace c = true → split_ws (String c s) = split_ws s.
Proof. intros Hc. cbn [split_ws]. by rewrite Hc. Qed.

(** A word starts at a character that is not whitespace and runs as far
    as [span_token] says. *)
Lemma split_ws_span (s : string) : ∀ c,
  isspace c = false →
  split_ws (String c s) = String c (span_token s).1 :: split_ws (span_token s).2.
Proof.
  induction s as [|c' s IH]; intros c Hc.
  - cbn. by rewrite Hc.
  - cbn [split_ws span_token]. rewrite Hc.
    destruct (isspace c') eqn:Hc'.
    + cbn [fst snd]. by rewrite split_ws_space.
    + specialize (IH c' Hc'). cbn [split_ws] in IH. rewrite Hc' in IH.
      rewrite IH. by destruct (span_token s).
Qed.

Lemma span_token_word (w : string) (c : ascii) (s : string) :
  no_space w = true → isspace c = true →
  span_token (w ++ String c s) = (w, String c s).
Proof.
  intros Hw Hc. induction w as [|x w IH].
  - rewrite append_nil_l. cbn [span_token]. by rewrite Hc.
  - cbn [no_space] in Hw. apply andb_true_iff in Hw as [Hx%negb_true_iff Hw].
    rewrite append_cons. cbn [span_token]. by rewrite Hx, (IH Hw).
Qed.

Lemma span_token_word_end (w : string) :
  no_space w = true → span_token w = (w, EmptyString).
Proof.
  intros Hw. induction w as [|x w IH]; [done|].
  cbn [no_space] in Hw. apply andb_true_iff in Hw as [Hx%negb_true_iff Hw].
  cbn [span_token]. by rewrite Hx, (IH Hw).
Qed.

Lemma is_word_cons (w : string) :
  is_word w = true →
  ∃ x w', w = String x w' ∧ isspace x = false ∧ no_space w' = true.
Proof.
  unfold is_word. destruct w as [|x w']; [done|].
  rewrite bool_decide_eq_false_2 by done. cbn [negb andb no_space].
  intros [Hx%negb_true_iff Hw]%andb_true_iff. eauto.
Qed.

Lemma split_ws_word (w : string) : is_word w = true → split_ws w = [w].
Proof.
  intros (x & w' & -> & Hx & Hw)%is_word_cons.
  by rewrite split_ws_span, span_token_word_end.
Qed.

Lemma split_ws_word_cons (w s : string) :
  is_word w = true → split_ws (w ++ " " ++ s) = w :: split_ws s.
Proof.
  intros (x & w' & -> & Hx & Hw)%is_word_cons.
  rewrite append_cons, split_ws_span by done.
  change (" " ++ s) with (String " " s).
  rewrite span_token_word by done. cbn [fst snd].
  by rewrite split_ws_space.
Qed.

(** [split] undoes [join] on words. *)
Lemma split_ws_join (ws : list string) :
  Forall (λ w, is_word w = true) ws → split_ws (join " " ws) = ws.
Proof.
  induction 1 as [|w ws Hw Hws IH]; [done|].
  destruct ws as [|w' ws].
  - by apply split_ws_word.
  - cbn [join] in *. by rewrite split_ws_word_cons, IH.
Qed.

(** What [split] returns are words. *)
Lemma split_ws_words (s : string) : Forall (λ w, is_word w = true) (split_ws s).
Proof.
  induction s as [|c s IH]; [constructor|].
  cbn [split_ws]. destruct (isspace c) eqn:Hc; [done|].
  assert (Hone : ∀ w, no_space w = true → is_word (String c w) = true).
  { intros w Hw. unfold is_word. rewrite bool_decide_eq_false_2 by done.
    cbn [negb andb no_space]. by rewrite Hc, Hw. }
  destruct s as [|c' s']; [constructor; [by apply Hone|constructor]|].
  destruct (isspace c'); [constructor; [by apply Hone|done]|].
  destruct (split_ws (String c' s')) as [|w ws];
    [constructor; [by apply Hone|constructor]|].
  inversion IH as [|? ? Hw Hws]; subst. constructor; [|done].
  apply Hone. apply is_word_cons in Hw as (x & w' & -> & Hx & Hw).
  cbn [no_space]. by rewrite Hx, Hw.
Qed.

Lemma no_space_uint (d : Decimal.uint) :
  no_space (NilEmpty.string_of_uint d) = true.
Proof. induction d; cbn [NilEmpty.string_of_uint no_space]; by rewrite ?IHd. Qed.

(** [str(n)] of an integer is a word. *)
Lemma is_word_str_int (n : Z) : is_word (str (VInt n)) = true.
Proof.
  cbn [str]. generalize (Z.to_int n). intros d.
  assert (Hu : ∀ u, is_word (NilZero.string_of_uint u) = true).
  { intros u. pose proof (no_space_uint u) as Hu.
    destruct u; cbn [NilZero.string_of_uint] in *; try done;
      unfold is_word; cbn [NilEmpty.string_of_uint] in *;
      by rewrite bool_decide_eq_false_2. }
  destruct d as [u|u]; cbn [NilZero.string_of_int]; [done|].
  specialize (Hu u). apply is_word_cons in Hu as (x & w' & Heq & Hx & Hw).
  unfold is_word. rewrite bool_decide_eq_false_2 by done.
  rewrite Heq. cbn [negb andb no_space]. by rewrite Hx, Hw.
Qed.

Lemma get_save (self : t) (s : string) :
  entries self !! "save" = Some (VStr s) → get_config_value self "save" = VStr s.
Proof. intros H. unfold get_config_value. by rewrite H. Qed.

Lemma set_snapshot_at_words (i : nat) (self : t) (s : string) (n : Z) :
  entries self !! "save" = Some (VStr s) →
  set_snapshot_at i self (VInt n)
  = if decide (i < length (split_ws s))%nat
    then Returns (bound self "save"
                    (VStr (join " " (<[i := str (VInt n)]> (split_ws s)))), true)
    else Raises (Builtin IndexError).
Proof.
  intros Hsave. unfold set_snapshot_at. rewrite (get_save _ _ Hsave).
  cbn [value_split]. unfold setitem. case_decide; [|done].
  by rewrite set_config_value_present by (rewrite Hsave; eauto).
Qed.

(** X7: on a store whose [save] value has at least two words,
    [set_snapshot_seconds] puts the number in place of the first word and
    [set_snapshot_changes] in place of the second; the words are written
    back with one space between them, whatever was between them before.
    The number is one that [str] renders. *)
Theorem set_snapshot_replaces_word (self : t) (s first second : string)
    (rest : list string) (n : Z) :
  within_str_limit n = true →
  entries self !! "save" = Some (VStr s) →
  split_ws s = first :: second :: rest →
  set_snapshot_seconds self (VInt n)
  = Returns (bound self "save"
               (VStr (join " " (str (VInt n) :: second :: rest))), true)
  ∧ set_snapshot_changes self (VInt n)
    = Returns (bound self "save"
                 (VStr (join " " (first :: str (VInt n) :: rest))), true).
Proof.
  intros _ Hsave Hwords. unfold set_snapshot_seconds, set_snapshot_changes.
  rewrite !(set_snapshot_at_words _ _ _ _ Hsave), Hwords.
  cbn [length]. rewrite !decide_True by lia. done.
Qed.

Lemma set_snapshot_replaces_word_witness :
  set_snapshot_seconds snapshot_store (VInt 300)
  = Returns (bound snapshot_store "save" (VStr "300 1"), true)
  ∧ set_snapshot_changes snapshot_store (VInt 10)
    = Returns (bound snapshot_store "save" (VStr "900 10"), true).
Proof.
  split.
  - exact (proj1 (set_snapshot_replaces_word snapshot_store "900 1" "900" "1" []
                    300 eq_refl eq_refl eq_refl)).
  - exact (proj2 (set_snapshot_replaces_word snapshot_store "900 1" "900" "1" []
                    10 eq_refl eq_refl eq_refl)).
Defined.



Lemma bound_bound (self : t) (key : string) (v v' : value) :
  bound (bound self key v) key v' = bound self key v'.
Proof. unfold bound; cbn. by rewrite insert_insert_eq. Qed.

Lemma set_snapshot_at_bound (i : nat) (self : t) (ws : list string) (n : Z) :
  is_Some (entries self !! "save") →
  Forall (λ w, is_word w = true) ws →
  (i < length ws)%nat →
  set_snapshot_at i (bound self "save" (VStr (join " " ws))) (VInt n)
  = Returns (bound self "save" (VStr (join " " (<[i := str (VInt n)]> ws))), true).
Proof.
  intros Hsave Hws Hi.
  rewrite (set_snapshot_at_words i _ (join " " ws))
    by (cbn; by rewrite lookup_insert_eq).
  rewrite split_ws_join by done. rewrite decide_True by done.
  by rewrite bound_bound.
Qed.

(** X9: on a store whose [save] value has at least two words, setting the
    seconds and then the changes gives the same store as setting the
    changes and then the seconds: [save] holds the two numbers, then the
    words that followed.  The numbers are ones that [str] renders. *)
Theorem set_snapshot_commute (self : t) (s first second : string)
    (rest : list string) (n m : Z) :
  within_str_limit n = true →
  within_str_limit m = true →
  entries self !! "save" = Some (VStr s) →
  split_ws s = first :: second :: rest →
  ∃ self1 self2,
    set_snapshot_seconds self (VInt n) = Returns (self1, true)
    ∧ set_snapshot_changes self (VInt m) = Returns (self2, true)
    ∧ set_snapshot_changes self1 (VInt m)
      = Returns (bound self "save"
                   (VStr (join " " (str (VInt n) :: str (VInt m) :: rest))), true)
    ∧ set_snapshot_seconds self2 (VInt n)
      = Returns (bound self "save"
                   (VStr (join " " (str (VInt n) :: str (VInt m) :: rest))), true).
Proof.
  intros _ _ Hsave Hwords.
  assert (Hsome : is_Some (entries self !! "save")) by (rewrite Hsave; eauto).
  pose proof (split_ws_words s) as Hws. rewrite Hwords in Hws.
  inversion Hws as [|? ? Hfirst Hws']; subst.
  inversion Hws' as [|? ? Hsecond Hrest]; subst.
  unfold set_snapshot_seconds, set_snapshot_changes.
  rewrite !(set_snapshot_at_words _ _ _ _ Hsave), Hwords.
  cbn [length]. rewrite !decide_True by lia.
  eexists _, _. split; [done|]. split; [done|].
  cbn [list_insert insert]. split.
  - rewrite set_snapshot_at_bound; [done|done| |cbn; lia].
    constructor; [apply is_word_str_int|by constructor].
  - rewrite set_snapshot_at_bound; [done|done| |cbn; lia].
    constructor; [done|]. constructor; [apply is_word_str_int|done].
Qed.

Lemma set_snapshot_commute_witness :
  ∃ self1 self2,
    set_snapshot_seconds snapshot_store (VInt 300) = Returns (self1, true)
    ∧ set_snapshot_changes snapshot_store (VInt 10) = Returns (self2, true)
    ∧ set_snapshot_changes self1 (VInt 10)
      = Returns (bound snapshot_store "save" (VStr "300 10"), true)
    ∧ set_snapshot_seconds self2 (VInt 300)
      = Returns (bound snapshot_store "save" (VStr "300 10"), true).
Proof.
  exact (set_snapshot_commute snapshot_store "900 1" "900" "1" [] 300 10
           eq_refl eq_refl eq_refl eq_refl).
Defined.

End snapshot.

(** ** RedisConfig: what [write] leaves in the file *)

Section writing.
Import RedisConfig.

Lemma write_entries_all_bound (self : t) (order : list string) : ∀ out,
  all_bound self order →
  write_entries self order out = (out ++ entries_text self order, Ok tt).
Proof.
  induction order as [|k order IH]; intros out Hbound.
  - cbn. by rewrite append_nil_r.
  - inversion Hbound as [|? ? [[v Hv] [c Hc]] Hrest]; subst.
    cbn [write_entries entries_text]. rewrite Hc, Hv, (IH _ Hrest).
    unfold entry_text. rewrite Hc, Hv. cbn [default].
    by rewrite !append_assoc.
Qed.












End writing.

(** ** RedisConfig: what [parse] leaves behind *)

Section parsing.
Import RedisConfig Canonical.

Implicit Types (E : gmap string value) (C : gmap string string).

(** A line that [parse] gets through is a comment line, which changes
    neither map nor the entry order, or gives one key, appended to the
    entry order and bound in both maps. *)
Lemma parse_line_inv (line : string) E C (p : string) (w w' : State)
    E' C' (p' : string) :
  parse_line line (E, C, p) w = (w', Ok (E', C', p')) →
  (w' = w ∧ E' = E ∧ C' = C)
  ∨ ∃ key val, w' = appended w [key]
               ∧ E' = <[key := VStr val]> E ∧ C' = <[key := p]> C.
Proof.
  unfold parse_line. destruct (is_entry_line line).
  2:{ intros [= <- <- <- <-]. by left. }
  destruct (split_maxsplit1 line) as [|k [|v l]];
    unfold mbind, M_bind, lift; cbn; [done| |].
  - destruct (decide (is_Some (E !! k))); cbn; done.
  - destruct (decide (is_Some (E !! k))); cbn.
    + destruct (split_maxsplit1 v) as [|q [|r l']]; cbn; [done..|].
      intros [= <- <- <- <-]. right. by eexists _, _.
    + intros [= <- <- <- <-]. right. by eexists _, _.
Qed.

Lemma parse_lines_inv (lines : list string) : ∀ E C (p : string) (w w' : State)
    E' C' (p' : string),
  for_each parse_line lines (E, C, p) w = (w', Ok (E', C', p')) →
  ∃ ks, w' = appended w ks
        ∧ (∀ k, k ∈ ks → is_Some (E' !! k) ∧ is_Some (C' !! k))
        ∧ (∀ k, is_Some (E !! k) → is_Some (E' !! k))
        ∧ (∀ k, is_Some (C !! k) → is_Some (C' !! k)).
Proof.
  induction lines as [|line rest IH]; intros E C p w w' E' C' p'.
  - intros [= <- <- <- <-]. exists []. rewrite appended_nil.
    split; [done|]. split; [|done]. intros k Hk. by apply elem_of_nil in Hk.
  - cbn [for_each]. unfold mbind at 1, M_bind at 1.
    destruct (parse_line line (E, C, p) w) as [w1 [[[E1 C1] p1]|e]] eqn:Hline;
      [|done].
    intros Hrest. apply IH in Hrest as (ks & -> & Hks & HE & HC).
    apply parse_line_inv in Hline as [(-> & -> & ->)|(key & val & -> & -> & ->)].
    + by exists ks.
    + exists (key :: ks). rewrite appended_cons. split; [done|].
      assert (HkeyE : is_Some (<[key := VStr val]> E !! key))
        by (rewrite lookup_insert_eq; eauto).
      assert (HkeyC : is_Some (<[key := p]> C !! key))
        by (rewrite lookup_insert_eq; eauto).
      split; [|split].
      * intros k [->|Hk]%elem_of_cons; [by auto|by apply Hks].
      * intros k Hk. apply HE. destruct (decide (key = k)) as [->|Hne]; [done|].
        by rewrite lookup_insert_ne.
      * intros k Hk. apply HC. destruct (decide (key = k)) as [->|Hne]; [done|].
        by rewrite lookup_insert_ne.
Qed.

(** X13: whatever the text, when the first store of the process is built
    from it without an exception, every key of the entry order has a
    value and comments in that store, and [write] succeeds. *)
Theorem write_after_first_parse (fname : string) (w w1 : State) (cfg : t) :
  entry_order w = [] →
  __init__ fname w = (w1, Ok cfg) →
  all_bound cfg (entry_order w1)
  ∧ write cfg w1
    = ({| files := <[fname := entries_text cfg (entry_order w1)
                              ++ trailing_comments cfg]> (files w1);
          entry_order := entry_order w1 |}, Ok tt).
Proof.
  intros Horder. unfold __init__, parse, read. cbn [filename changed].
  unfold mbind at 1 2, M_bind at 1 2.
  destruct (files w !! fname) as [text|]; [|done].
  destruct (for_each parse_line (split nl (universal_newlines text))
              (∅, ∅, EmptyString) w)
    as [w' [[[E' C'] p']|e]] eqn:Hloop; [|done].
  intros [= <- <-].
  apply parse_lines_inv in Hloop as (ks & -> & Hks & _ & _).
  assert (Hbound : all_bound
            {| filename := fname; entries := E'; comments := C';
               trailing_comments := drop_last p'; changed := false |}
            (entry_order (appended w ks))).
  { cbn [appended entry_order]. rewrite Horder, app_nil_l.
    apply Forall_forall. intros k Hk. by apply Hks. }
  split; [exact Hbound|]. unfold write.
  by rewrite (write_entries_all_bound _ _ _ Hbound), append_nil_l.
Qed.

Lemma write_after_first_parse_witness :
  ∃ w1 cfg,
    __init__ "redis.conf" (fresh "redis.conf" ("bind  127.0.0.1" ++ NL)) = (w1, Ok cfg)
    ∧ all_bound cfg (entry_order w1)
    ∧ write cfg w1
      = ({| files := <["redis.conf" := entries_text cfg (entry_order w1)
                                        ++ trailing_comments cfg]> (files w1);
            entry_order := entry_order w1 |}, Ok tt).
Proof.
  destruct (__init__ "redis.conf" (fresh "redis.conf" ("bind  127.0.0.1" ++ NL)))
    as [w1 [cfg|e]] eqn:Hinit; [|vm_compute in Hinit; discriminate Hinit].
  exists w1, cfg. split; [reflexivity|].
  exact (write_after_first_parse "redis.conf"
           (fresh "redis.conf" ("bind  127.0.0.1" ++ NL)) w1 cfg eq_refl Hinit).
Defined.

Lemma comment_lines (lines : list string) : ∀ E C (p : string) (w : State),
  Forall (λ line, is_entry_line line = false) lines →
  for_each parse_line lines (E, C, p) w = (w, Ok (E, C, p ++ unlines lines)).
Proof.
  induction lines as [|line rest IH]; intros E C p w Hlines.
  - cbn. by rewrite append_nil_r.
  - inversion Hlines as [|? ? Hline Hrest]; subst.
    cbn [for_each]. unfold mbind at 1, M_bind at 1.
    rewrite parse_line_comment by done. rewrite (IH _ _ _ _ Hrest).
    cbn [unlines]. by rewrite !append_assoc.
Qed.

(** X14: a text whose first entry line, as read, has a key and nothing
    after it stops the construction with [IndexError], and the key of
    that line stays in the entry order of the class. *)
Theorem parse_key_without_value (fname text : string) (w : State)
    (before after : list string) (line key : string) :
  files w !! fname = Some text →
  split nl (universal_newlines text) = (before ++ line :: after)%list →
  Forall (λ l, is_entry_line l = false) before →
  is_entry_line line = true →
  split_maxsplit1 line = [key] →
  __init__ fname w = (appended w [key], Raise IndexError).
Proof.
  intros Hfile Hlines Hbefore Hline Hsplit.
  unfold __init__, parse, read. cbn [filename changed].
  unfold mbind at 1 2, M_bind at 1 2. rewrite Hfile, Hlines.
  assert (Hloop : ∀ E C (p : string) (w0 : State), E = ∅ →
            for_each parse_line (before ++ line :: after) (E, C, p) w0
            = (appended w0 [key], Raise IndexError)).
  { clear Hfile Hlines. intros E C p w0 ->. revert C p w0.
    induction before as [|l before IH]; intros C p w0.
    - cbn [app for_each]. unfold mbind at 1, M_bind at 1.
      unfold parse_line. rewrite Hline, Hsplit.
      unfold mbind, M_bind, lift; cbn.
      rewrite decide_False; [done|]. rewrite lookup_empty. by intros [? ?].
    - inversion Hbefore as [|? ? Hl Hrest]; subst.
      cbn [app for_each]. unfold mbind at 1, M_bind at 1.
      rewrite parse_line_comment by done. by apply IH. }
  by rewrite Hloop.
Qed.

Lemma parse_key_without_value_witness :
  __init__ "redis.conf" (fresh "redis.conf" ("# mode" ++ NL ++ "daemonize" ++ NL))
  = (appended (fresh "redis.conf" ("# mode" ++ NL ++ "daemonize" ++ NL)) ["daemonize"],
     Raise IndexError).
Proof.
  apply (parse_key_without_value "redis.conf" ("# mode" ++ NL ++ "daemonize" ++ NL)
           (fresh "redis.conf" ("# mode" ++ NL ++ "daemonize" ++ NL))
           ["# mode"] [""] "daemonize" "daemonize");
    try reflexivity.
  repeat constructor.
Defined.

End parsing.

(** ** RedisUsers: adding, removing, loading, writing *)

Section users.
Import Dict RedisUsers.

Lemma get_None_notin {V} (d : dict V) (k : string) :
  get d k = None ↔ k ∉ d.*1.
Proof.
  induction d as [|[k0 x] d IH]; cbn.
  - split; [intros _; apply not_elem_of_nil|done].
  - rewrite not_elem_of_cons. destruct (decide (k0 = k)) as [->|Hne].
    + split; [done|]. by intros [? _].
    + rewrite IH. split; [by auto|]. by intros [_ ?].
Qed.

Lemma mem_true_iff {V} (d : dict V) (k : string) : mem d k = true ↔ k ∈ d.*1.
Proof.
  destruct (mem d k) eqn:Hmem.
  - split; [intros _|done]. destruct (decide (k ∈ d.*1)) as [|Hnot]; [done|].
    apply get_None_notin, mem_false in Hnot. congruence.
  - split; [done|]. intros Hin. apply mem_false, get_None_notin in Hmem. done.
Qed.

Lemma get_del_ne {V} (d : dict V) (k k' : string) :
  k ≠ k' → get (del d k) k' = get d k'.
Proof.
  intros Hne. induction d as [|[k0 x] d IH]; [done|]. cbn [del].
  destruct (decide (k0 = k)) as [->|Hk0]; cbn [get].
  - by rewrite decide_False.
  - by rewrite IH.
Qed.

Lemma get_del_eq {V} (d : dict V) (k : string) :
  NoDup d.*1 → get (del d k) k = None.
Proof.
  induction d as [|[k0 x] d IH]; [done|]. cbn [fmap list_fmap fst].
  intros [Hnotin Hnodup]%NoDup_cons. cbn [del].
  destruct (decide (k0 = k)) as [->|Hk0].
  - by apply get_None_notin.
  - cbn [get]. rewrite decide_False by done. by apply IH.
Qed.

Lemma del_set_new {V} (d : dict V) (k : string) (v : V) :
  get d k = None → del (set d k v) k = d.
Proof.
  induction d as [|[k0 x] d IH]; cbn [get set del].
  - by rewrite decide_True.
  - destruct (decide (k0 = k)) as [->|Hk0]; [done|]. intros Hget.
    cbn [del]. rewrite decide_False by done. by rewrite IH.
Qed.

(** X15: [add_user] for a name that is registered answers [False] and
    changes neither the registry nor anything else. *)
Theorem add_user_registered (self : t) (w : State)
    (user status keys commands : string) (password : option string) (u : User) :
  get (the_users self w) user = Some u →
  add_user self user status keys commands password w = (w, Ok (self, false)).
Proof.
  intros Hget. unfold add_user, self_users, gets, mbind, M_bind.
  replace (mem (the_users self w) user) with true; [done|].
  symmetry. apply mem_true_iff. destruct (decide (user ∈ (the_users self w).*1));
    [done|]. apply get_None_notin in n. congruence.
Qed.

Lemma add_user_registered_witness :
  add_user sample_registry "bob" "on" "*" "@all" (Some "hunter2") sample_users_state
  = (sample_users_state, Ok (sample_registry, false)).
Proof.
  exact (add_user_registered sample_registry sample_users_state
           "bob" "on" "*" "@all" (Some "hunter2") _ eq_refl).
Defined.

(** X16: [remove_user] for a registered name answers [True]; afterwards
    the name is not registered and every other name has the user it
    had. *)
Theorem remove_user_registered (self : t) (w : State) (user : string) (u : User) :
  NoDup (the_users self w).*1 →
  get (the_users self w) user = Some u →
  ∃ self' w',
    remove_user self user w = (w', Ok (self', true))
    ∧ get (the_users self' w') user = None
    ∧ ∀ k, k ≠ user → get (the_users self' w') k = get (the_users self w) k.
Proof.
  intros Hnodup Hget.
  destruct (update_users_the_users self (del (the_users self w) user) w)
    as (self' & w' & Hupd & Husers & _).
  exists self', w'. split; [|split].
  - unfold remove_user, self_users, gets, mbind, M_bind.
    replace (mem (the_users self w) user) with true; [by rewrite Hupd|].
    symmetry. apply mem_true_iff.
    destruct (decide (user ∈ (the_users self w).*1)) as [|Hnot]; [done|].
    apply get_None_notin in Hnot. congruence.
  - rewrite Husers. by apply get_del_eq.
  - intros k Hk. rewrite Husers. by apply get_del_ne.
Qed.

Lemma remove_user_registered_witness :
  ∃ self' w',
    remove_user sample_registry "alice" sample_users_state = (w', Ok (self', true))
    ∧ get (the_users self' w') "alice" = None
    ∧ ∀ k, k ≠ "alice" →
        get (the_users self' w') k = get (the_users sample_registry sample_users_state) k.
Proof.
  apply (remove_user_registered sample_registry sample_users_state "alice"
           (User_set_password (User__init__ "on" "*" "@all" None) "secret")).
  - apply (bool_decide_unpack _). vm_compute. exact I.
  - reflexivity.
Defined.

(** X17: adding a user under a new name and removing it again gives back
    the registry, the instance and the state as they were. *)
Theorem remove_after_add (self : t) (w : State)
    (user status keys commands : string) (password : option string) :
  get (the_users self w) user = None →
  (r ← add_user self user status keys commands password;
   remove_user r.1 user) w
  = (w, Ok (self, true)).
Proof.
  intros Hnew. unfold add_user, remove_user, self_users, gets.
  unfold mbind, M_bind. apply mem_false in Hnew as Hmem. rewrite Hmem.
  unfold update_users, the_users in *.
  destruct self as [fname [own|]], w as [fs cls srv]; cbn in *.
  - unfold mem. rewrite get_set_eq.
    rewrite bool_decide_eq_true_2 by eauto. by rewrite del_set_new.
  - unfold mem. rewrite get_set_eq.
    rewrite bool_decide_eq_true_2 by eauto. by rewrite del_set_new.
Qed.

Lemma remove_after_add_witness :
  (r ← add_user sample_registry "carol" "on" "*" "@all" None;
   remove_user r.1 "carol") sample_users_state
  = (sample_users_state, Ok (sample_registry, true)).
Proof.
  exact (remove_after_add sample_registry sample_users_state
           "carol" "on" "*" "@all" None eq_refl).
Defined.

End users.

(** ** RedisUsers: loading and writing *)

Section loading.
Import Dict RedisUsers.

Lemma parse_dict_complete (self : User) (record : dict string) :
  complete record →
  ∃ u, parse_dict self record = Ok u ∧ loaded_as record u.
Proof.
  unfold complete. rewrite !Forall_cons.
  intros ([s Hs] & [k Hk] & [c Hc] & [h Hh] & _).
  unfold parse_dict, getitem. rewrite Hs, Hk, Hc, Hh. cbn.
  eexists. split; [done|]. by unfold loaded_as.
Qed.

Lemma parse_dict_incomplete (self : User) (record : dict string) :
  ¬ complete record →
  ∃ f, parse_dict self record = Raise (KeyError f)
       ∧ f ∈ ["status"; "keys"; "commands"; "hash_password"].
Proof.
  intros Hnot. unfold parse_dict, getitem.
  destruct (get record "status") as [s|] eqn:Hs; cbn;
    [|eexists; split; [done|]; rewrite !elem_of_cons; auto].
  destruct (get record "keys") as [k|] eqn:Hk; cbn;
    [|eexists; split; [done|]; rewrite !elem_of_cons; auto].
  destruct (get record "commands") as [c|] eqn:Hc; cbn;
    [|eexists; split; [done|]; rewrite !elem_of_cons; auto].
  destruct (get record "hash_password") as [h|] eqn:Hh; cbn;
    [|eexists; split; [done|]; rewrite !elem_of_cons; auto 6].
  destruct Hnot. unfold complete. rewrite !Forall_cons, Hs, Hk, Hc, Hh.
  eauto 10.
Qed.

(** X18: a registry file in which every record has the four fields loads
    into a registry of its own, with the same names in the same order and
    for each name the status, keys, commands and hash of its record;
    nothing else changes. *)
Theorem load_complete (fname : string) (w : State) (loaded : dict (dict string)) :
  files w !! fname = Some loaded →
  Forall (λ kv, complete kv.2) loaded →
  ∃ d,
    __init__ fname w = (w, Ok {| filename := fname; users := Some d |})
    ∧ d.*1 = loaded.*1
    ∧ Forall2 (λ kv ku, loaded_as kv.2 ku.2) loaded d.
Proof.
  intros Hfile Hcomplete.
  assert (Hparse : ∃ d, parse_users loaded = Ok d ∧ d.*1 = loaded.*1
                        ∧ Forall2 (λ kv ku, loaded_as kv.2 ku.2) loaded d).
  { clear Hfile. induction Hcomplete as [|[name record] rest Hrec _ IH].
    - exists []. by repeat split; try constructor.
    - destruct IH as (d & Hd & Hnames & Hall).
      destruct (parse_dict_complete (User__init__ "on" "*" "@all" None) record Hrec)
        as (u & Hu & Hloaded).
      exists ((name, u) :: d). cbn [parse_users]. rewrite Hu, Hd. cbn.
      split; [done|]. split; [by rewrite Hnames|]. by constructor. }
  destruct Hparse as (d & Hd & Hnames & Hall). exists d.
  split; [|done].
  unfold __init__, parse, gets, lift. cbn [filename].
  unfold mbind, M_bind. rewrite Hfile.
  rewrite bool_decide_eq_true_2 by eauto. cbn. rewrite Hfile. cbn.
  by rewrite Hd.
Qed.

Lemma load_complete_witness :
  ∃ d,
    __init__ "redis.users" sample_users_state
    = (sample_users_state, Ok {| filename := "redis.users"; users := Some d |})
    ∧ d.*1 = ["alice"; "bob"]
    ∧ Forall2 (λ kv ku, loaded_as kv.2 ku.2)
        [("alice", sample_record "on"); ("bob", sample_record "off")] d.
Proof.
  apply (load_complete "redis.users" sample_users_state
           [("alice", sample_record "on"); ("bob", sample_record "off")] eq_refl).
  repeat constructor; eexists; reflexivity.
Defined.

(** X19: loading succeeds exactly when every record has the four fields;
    otherwise it raises [KeyError] for one of them. *)
Theorem parse_users_complete (loaded : dict (dict string)) :
  ((∃ d, parse_users loaded = Ok d) ↔ Forall (λ kv, complete kv.2) loaded)
  ∧ (∀ e, parse_users loaded = Raise e →
       ∃ f, e = KeyError f ∧ f ∈ ["status"; "keys"; "commands"; "hash_password"]).
Proof.
  induction loaded as [|[name record] rest [IHiff IHraise]].
  - split; [|done]. split; [constructor|by eexists].
  - cbn [parse_users].
    destruct (decide (complete record)) as [Hrec|Hrec].
    + destruct (parse_dict_complete (User__init__ "on" "*" "@all" None) record Hrec)
        as (u & -> & _). cbn.
      destruct (parse_users rest) as [d|e] eqn:Hrest; cbn.
      * split; [|done]. split; [|by eexists].
        intros _. constructor; [done|]. apply IHiff. by eexists.
      * split; [|by intros e' [= <-]; apply IHraise].
        split; [by intros [? ?]|].
        intros [_ Hall]%Forall_cons. apply IHiff in Hall as [? ?]. done.
    + destruct (parse_dict_incomplete (User__init__ "on" "*" "@all" None) record Hrec)
        as (f & -> & Hf). cbn.
      split; [|intros e [= <-]; eauto].
      split; [by intros [? ?]|]. by intros [? _]%Forall_cons.
Qed.

Lemma get_user_dict_again (u : User) :
  get_user_dict (get_user_dict u).1 = get_user_dict u.
Proof. reflexivity. Qed.

(** X20: writing twice is writing once: the second [write] changes
    neither the file nor the registry. *)
Theorem write_twice (self : t) (w : State) :
  (self1 ← write self; write self1) w = write self w.
Proof.
  unfold write, self_users, gets, modify, update_users, the_users.
  unfold mbind, M_bind, mret, M_ret.
  destruct self as [fname [own|]], w as [fs cls srv]; cbn.
  - rewrite <- !list_fmap_compose.
    rewrite insert_insert_eq. do 4 f_equal.
  - rewrite <- !list_fmap_compose.
    rewrite insert_insert_eq. do 2 f_equal.
Qed.

End loading.

(** ** The stored hash *)

Section hashes.
Import Sha256.

Lemma round_length (s : list Z) (kw : Z * Z) :
  length s = 8%nat → length (round s kw) = 8%nat.
Proof.
  intros Hs. do 9 (destruct s as [|? s]; try done).
Qed.

Lemma rounds_length (kws : list (Z * Z)) : ∀ s,
  length s = 8%nat → length (fold_left round kws s) = 8%nat.
Proof.
  induction kws as [|kw kws IH]; intros s Hs; [done|].
  cbn [fold_left]. by apply IH, round_length.
Qed.

Lemma compress_length (h block : list Z) :
  length h = 8%nat → length (compress h block) = 8%nat.
Proof.
  intros Hh. unfold compress. rewrite length_zip_with, rounds_length by done. lia.
Qed.

Lemma blocks_length (n : nat) : ∀ h bytes,
  length h = 8%nat → length (blocks n h bytes) = 8%nat.
Proof.
  induction n as [|n IH]; intros h bytes Hh; [done|].
  cbn [blocks]. by apply IH, compress_length.
Qed.

Lemma be_bytes_length (n : nat) (x : Z) : length (be_bytes n x) = n.
Proof. induction n as [|n IH]; cbn [be_bytes length]; by rewrite ?IH. Qed.

Lemma be_bytes_range (n : nat) (x : Z) :
  Forall (λ b, 0 ≤ b < 256) (be_bytes n x).
Proof.
  induction n as [|n IH]; cbn [be_bytes]; constructor; [|done].
  change 255 with (Z.ones 8). rewrite Z.land_ones by lia.
  apply Z.mod_pos_bound. lia.
Qed.

Lemma words_bytes_length (l : list Z) :
  length (flat_map (be_bytes 4) l) = (4 * length l)%nat.
Proof.
  induction l as [|x l IH]; [done|].
  cbn [flat_map]. rewrite length_app, be_bytes_length, IH. cbn [length]. lia.
Qed.

Lemma words_bytes_range (l : list Z) :
  Forall (λ b, 0 ≤ b < 256) (flat_map (be_bytes 4) l).
Proof.
  induction l as [|x l IH]; [constructor|].
  cbn [flat_map]. apply Forall_app. split; [apply be_bytes_range|done].
Qed.

Lemma hex_length (bytes : list Z) :
  String.length (hex bytes) = (2 * length bytes)%nat.
Proof.
  induction bytes as [|b bytes IH]; [done|].
  cbn [hex String.length length]. rewrite IH. lia.
Qed.

Lemma hex_char_is_hex (n : Z) : 0 ≤ n < 16 → is_hex (hex_char n) = true.
Proof.
  intros Hn.
  assert (Hall : forallb (λ k, is_hex (hex_char (Z.of_nat k))) (seq 0 16) = true)
    by (vm_compute; reflexivity).
  rewrite forallb_forall in Hall.
  rewrite <- (Z2Nat.id n) by lia. apply Hall, in_seq. lia.
Qed.

Lemma hex_all_hex (bytes : list Z) :
  Forall (λ b, 0 ≤ b < 256) bytes → all_hex (hex bytes) = true.
Proof.
  induction 1 as [|b bytes Hb _ IH]; [done|].
  cbn [hex all_hex]. rewrite IH, !hex_char_is_hex; [done| |].
  - change 15 with (Z.ones 4). rewrite Z.land_ones by lia.
    apply Z.mod_pos_bound. lia.
  - rewrite Z.shiftr_div_pow2 by lia. change (2 ^ 4) with 16.
    split; [apply Z.div_pos; lia|]. apply Z.div_lt_upper_bound; lia.
Qed.

(** X21: whatever the password, the hash that [set_password] stores has
    64 characters, all of them digits or letters from [a] to [f]. *)
Theorem stored_hash_shape (u : RedisUsers.User) (password : string) :
  String.length (RedisUsers.hash_password (RedisUsers.User_set_password u password))
  = 64%nat
  ∧ all_hex (RedisUsers.hash_password (RedisUsers.User_set_password u password))
    = true.
Proof.
  change (RedisUsers.hash_password (RedisUsers.User_set_password u password))
    with (hexdigest (utf8 password)).
  unfold hexdigest, digest. split.
  - rewrite hex_length, words_bytes_length, blocks_length; [done|].
    vm_compute. reflexivity.
  - apply hex_all_hex, words_bytes_range.
Qed.

End hashes.

(** ** RedisUsers: reconciliation, in general *)

Section passes.
Import Dict RedisUsers.

Lemma create_loop_listed (current_users : list string) (d : dict User) (w : State) :
  (∀ u, u ∈ d.*1 → u ∈ current_users) →
  for_each (λ (kv : string * User) (_ : unit),
      let (user, data) := kv in
      if bool_decide (user ∉@{list string} current_users) then
        send (acl_setuser user ["+" ++ hash_password data]
                (bool_decide (status data = "on")) (keys data)
                ["+" ++ commands data])
      else mret tt) d tt w = (w, Ok tt).
Proof.
  induction d as [|[user data] d IH]; intros Hlisted; [done|].
  cbn [for_each]. unfold mbind at 1, M_bind at 1.
  rewrite bool_decide_eq_false_2.
  - apply IH. intros u Hu. apply Hlisted. cbn. by apply list_elem_of_further.
  - intros Hnot. apply Hnot, Hlisted. cbn. apply list_elem_of_here.
Qed.

Lemma delete_loop_declared (d : dict User) (current_users : list string) (w : State) :
  (∀ u, u ∈ current_users → u ∈ d.*1) →
  for_each (λ (user : string) (_ : unit),
      if negb (mem d user) then send (acl_deluser user) else mret tt)
    current_users tt w = (w, Ok tt).
Proof.
  induction current_users as [|user rest IH]; intros Hdeclared; [done|].
  cbn [for_each]. unfold mbind at 1, M_bind at 1.
  replace (mem d user) with true.
  - apply IH. intros u Hu. by apply Hdeclared, list_elem_of_further.
  - symmetry. apply mem_true_iff, Hdeclared, list_elem_of_here.
Qed.

Lemma pass_in_sync (self : t) (w : State) :
  (∀ u, u ∈ (the_users self w).*1 ↔ u ∈ acl_users (db w)) →
  apply_to_redis self w = (w, Ok tt).
Proof.
  intros Hsync. unfold apply_to_redis, self_users, gets.
  unfold mbind at 1 2 3, M_bind at 1 2 3.
  rewrite create_loop_listed by (intros u; apply Hsync).
  apply delete_loop_declared. intros u. apply Hsync.
Qed.

(** X22: when the server lists exactly the declared names,
    [apply_to_redis] sends nothing and changes nothing. *)
Theorem apply_to_redis_in_sync (self : t) (w : State) :
  (∀ u, u ∈ (the_users self w).*1 ↔ u ∈ acl_users (db w)) →
  apply_to_redis self w = (w, Ok tt).
Proof. apply pass_in_sync. Qed.

Lemma apply_to_redis_in_sync_witness :
  apply_to_redis sample_registry
    {| files := ∅; class_users := [];
       db := {| acl_users := ["bob"; "alice"]; received := [] |} |}
  = ({| files := ∅; class_users := [];
        db := {| acl_users := ["bob"; "alice"]; received := [] |} |}, Ok tt).
Proof.
  apply (apply_to_redis_in_sync sample_registry
           {| files := ∅; class_users := [];
              db := {| acl_users := ["bob"; "alice"]; received := [] |} |}).
  intros u. cbn. rewrite !elem_of_cons, !elem_of_nil. tauto.
Defined.

Lemma creates_filter (current_users : list string) (d : dict User) :
  creates current_users d
  = (λ kv : string * User,
       acl_setuser kv.1 [("+" ++ hash_password kv.2)%string]
         (bool_decide (status kv.2 = "on")) (keys kv.2)
         [("+" ++ commands kv.2)%string])
    <$> filter (λ kv : string * User, kv.1 ∉ current_users) d.
Proof.
  induction d as [|kv d IH]; [done|].
  cbn [creates flat_map]. rewrite filter_cons. fold (creates current_users d).
  rewrite IH. cbn beta.
  destruct (decide (kv.1 ∉ current_users)) as [Hn|Hn].
  - by rewrite (bool_decide_eq_true_2 _ Hn).
  - by rewrite (bool_decide_eq_false_2 _ Hn).
Qed.

Lemma deletes_filter (current_users : list string) (d : dict User) :
  deletes current_users d
  = acl_deluser <$> filter (λ user : string, user ∉ d.*1) current_users.
Proof.
  induction current_users as [|user rest IH]; [done|].
  cbn [deletes flat_map]. rewrite filter_cons. fold (deletes rest d).
  rewrite IH. cbn beta.
  destruct (decide (user ∉ d.*1)) as [Hn|Hn].
  - apply get_None_notin, mem_false in Hn as Hmem. by rewrite Hmem.
  - replace (mem d user) with true; [done|]. symmetry. apply mem_true_iff.
    by destruct (decide (user ∈ d.*1)).
Qed.

(** X23: the commands of one pass are, in this order and with no other
    command: for the registry in its order, one creation for each declared
    user whose name the server does not list, carrying the data of that
    user; then, for the list of the server in its order, one deletion for
    each name that is not declared. *)
Theorem apply_to_redis_commands (self : t) (w : State) :
  ∃ w',
    apply_to_redis self w = (w', Ok tt)
    ∧ received (db w')
      = (received (db w)
         ++ ((λ kv : string * User,
                acl_setuser kv.1 [("+" ++ hash_password kv.2)%string]
                  (bool_decide (status kv.2 = "on")) (keys kv.2)
                  [("+" ++ commands kv.2)%string])
             <$> filter (λ kv : string * User, kv.1 ∉ acl_users (db w))
                   (the_users self w))
         ++ (acl_deluser
             <$> filter (λ user : string, user ∉ (the_users self w).*1)
                   (acl_users (db w))))%list.
Proof.
  destruct (apply_to_redis_received self w) as (w' & Hrun & Hrec & _).
  exists w'. split; [exact Hrun|].
  by rewrite Hrec, creates_filter, deletes_filter.
Qed.

Lemma create_loop_acl (current_users : list string) (d : dict User) : ∀ w,
  ∃ w',
    for_each (λ (kv : string * User) (_ : unit),
        let (user, data) := kv in
        if bool_decide (user ∉@{list string} current_users) then
          send (acl_setuser user ["+" ++ hash_password data]
                  (bool_decide (status data = "on")) (keys data)
                  ["+" ++ commands data])
        else mret tt) d tt w = (w', Ok tt)
    ∧ class_users w' = class_users w
    ∧ ∀ u, u ∈ acl_users (db w')
           ↔ u ∈ acl_users (db w) ∨ (u ∈ d.*1 ∧ u ∉ current_users).
Proof.
  induction d as [|[user data] d IH]; intros w.
  - exists w. split; [done|]. split; [done|]. intros u. cbn.
    rewrite elem_of_nil. intuition.
  - cbn [for_each]. unfold mbind at 1, M_bind at 1.
    case_bool_decide as Hnot.
    + unfold send, modify.
      match goal with |- ∃ _, for_each _ _ _ ?w1 = _ ∧ _ =>
        destruct (IH w1) as (w' & Hrun & Hcls & Hacl) end.
      exists w'. split; [exact Hrun|]. split; [by rewrite Hcls|].
      intros u. rewrite Hacl. cbn [db acl_users fmap list_fmap fst].
      rewrite elem_of_cons.
      case_bool_decide as Hlisted.
      * intuition (subst; auto).
      * rewrite elem_of_app, list_elem_of_singleton. intuition (subst; auto).
    + destruct (IH w) as (w' & Hrun & Hcls & Hacl).
      exists w'. split; [exact Hrun|]. split; [done|].
      intros u. rewrite Hacl. cbn [fmap list_fmap fst]. rewrite elem_of_cons.
      split.
      * intros [?|[? ?]]; [by left|right; split; [by right|done]].
      * intros [?|[[Heq|?] Hn]]; [by left| |by right]. subst u. by destruct Hn.
Qed.

Lemma delete_loop_acl (d : dict User) (current_users : list string) : ∀ w,
  ∃ w',
    for_each (λ (user : string) (_ : unit),
        if negb (mem d user) then send (acl_deluser user) else mret tt)
      current_users tt w = (w', Ok tt)
    ∧ class_users w' = class_users w
    ∧ ∀ u, u ∈ acl_users (db w')
           ↔ u ∈ acl_users (db w) ∧ ¬ (u ∈ current_users ∧ u ∉ d.*1).
Proof.
  induction current_users as [|user rest IH]; intros w.
  - exists w. split; [done|]. split; [done|]. intros u.
    rewrite elem_of_nil. intuition.
  - cbn [for_each]. unfold mbind at 1, M_bind at 1.
    destruct (mem d user) eqn:Hmem; cbn [negb].
    + destruct (IH w) as (w' & Hrun & Hcls & Hacl).
      exists w'. split; [exact Hrun|]. split; [done|].
      intros u. rewrite Hacl, elem_of_cons. apply mem_true_iff in Hmem.
      intuition (subst; auto).
    + unfold send, modify.
      match goal with |- ∃ _, for_each _ _ _ ?w1 = _ ∧ _ =>
        destruct (IH w1) as (w' & Hrun & Hcls & Hacl) end.
      exists w'. split; [exact Hrun|]. split; [by rewrite Hcls|].
      intros u. rewrite Hacl. cbn [db acl_users].
      rewrite list_elem_of_filter, elem_of_cons.
      apply mem_false, get_None_notin in Hmem.
      intuition (subst; auto).
Qed.

(** X24: after one pass the server lists exactly the declared names, and
    a second pass sends nothing.  (The server adds the name in a creation
    it receives and drops the name in a deletion.) *)
Theorem apply_to_redis_converges (self : t) (w : State) :
  ∃ w',
    apply_to_redis self w = (w', Ok tt)
    ∧ (∀ u, u ∈ acl_users (db w') ↔ u ∈ (the_users self w).*1)
    ∧ apply_to_redis self w' = (w', Ok tt).
Proof.
  destruct (create_loop_acl (acl_users (db w)) (the_users self w) w)
    as (w1 & Hrun1 & Hcls1 & Hacl1).
  destruct (delete_loop_acl (the_users self w) (acl_users (db w)) w1)
    as (w' & Hrun2 & Hcls2 & Hacl2).
  assert (Hlisted : ∀ u, u ∈ acl_users (db w') ↔ u ∈ (the_users self w).*1).
  { intros u. rewrite Hacl2, Hacl1.
    destruct (decide (u ∈ acl_users (db w)));
      destruct (decide (u ∈ (the_users self w).*1)); tauto. }
  exists w'. split; [|split; [exact Hlisted|]].
  - unfold apply_to_redis, self_users, gets.
    unfold mbind at 1 2 3, M_bind at 1 2 3. by rewrite Hrun1.
  - apply pass_in_sync. intros u.
    unfold the_users in *. rewrite Hcls2, Hcls1. symmetry. apply Hlisted.
Qed.

End passes.

(** ** The server configuration *)

Section server_config.

(** X25: [ServerConfig] cannot be built from data without a [container]
    section: the format of the missing container is asked for, which
    raises [AttributeError].  With the section, the command templates are
    read from the section named by the container format, [singularity]
    when the container section names none, and are left unset when the
    data has no such section. *)
Theorem server_config_sections (data : gmap string (gmap string string)) :
  match data !! "container" with
  | None => ServerConfig.__init__ data = Raises (AttributeError "get_format")
  | Some c =>
      ServerConfig.__init__ data
      = Returns
          {| ServerConfig.container := Some (ContainerConfig.__init__ c);
             ServerConfig.process := ProcessConfig.__init__ <$> data !! "process";
             ServerConfig.container_format :=
               ContainerFormatConfig.__init__
                 <$> data !! default "singularity" (c !! "format") |}
  end.
Proof.
  unfold ServerConfig.__init__. by destruct (data !! "container").
Qed.

Lemma path_join_relative (dir name : string) :
  is_absolute name = false →
  path_join dir name
  = if bool_decide (dir = EmptyString) || ends_with_slash dir
    then dir ++ name else dir ++ "/" ++ name.
Proof.
  unfold path_join, is_absolute. destruct name as [|c name]; [done|].
  destruct (Ascii.eqb c "/") eqn:Hc.
  - apply Ascii.eqb_eq in Hc as ->. done.
  - intros _. destruct c as [[] [] [] [] [] [] [] []]; try done.
Qed.

Lemma path_join_absolute (dir name : string) :
  is_absolute name = true → path_join dir name = name.
Proof.
  unfold path_join, is_absolute. destruct name as [|c name]; [done|].
  destruct c as [[] [] [] [] [] [] [] []]; done.
Qed.

(** X26: in a container configuration, a file name that starts with "/"
    is its own path, whatever the directory; without a [config_dir] in
    the data, every other file name is looked for in ./merlin_server/. *)
Theorem container_paths (data : gmap string string) (name : string) :
  let self := ContainerConfig.__init__ data in
  let path := if is_absolute name then name
              else if bool_decide (ContainerConfig.config_dir self = EmptyString)
                      || ends_with_slash (ContainerConfig.config_dir self)
                   then ContainerConfig.config_dir self ++ name
                   else ContainerConfig.config_dir self ++ "/" ++ name in
  (ContainerConfig.get_config_name self = name →
   ContainerConfig.get_config_path self = path)
  ∧ (ContainerConfig.get_image_name self = name →
     ContainerConfig.get_image_path self = path)
  ∧ (ContainerConfig.get_pfile_name self = name →
     ContainerConfig.get_pfile_path self = path)
  ∧ (ContainerConfig.get_pass_file_name self = name →
     ContainerConfig.get_pass_file_path self = path)
  ∧ (ContainerConfig.get_user_file_name self = name →
     ContainerConfig.get_user_file_path self = path)
  ∧ (data !! "config_dir" = None →
     ContainerConfig.config_dir self = "./merlin_server/"
     ∧ (is_absolute name = false → path = "./merlin_server/" ++ name)).
Proof.
  intros self path.
  assert (Hpath : path_join (ContainerConfig.config_dir self) name = path).
  { subst path. destruct (is_absolute name) eqn:Habs.
    - by apply path_join_absolute.
    - by apply path_join_relative. }
  unfold ContainerConfig.get_config_path, ContainerConfig.get_image_path,
    ContainerConfig.get_pfile_path, ContainerConfig.get_pass_file_path,
    ContainerConfig.get_user_file_path, ContainerConfig.get_config_name,
    ContainerConfig.get_image_name, ContainerConfig.get_pfile_name,
    ContainerConfig.get_pass_file_name, ContainerConfig.get_user_file_name.
  repeat (split; [by intros ->|]).
  intros Hdir.
  assert (Hdefault : ContainerConfig.config_dir self = "./merlin_server/").
  { subst self. cbn. unfold ContainerConfig.field. by rewrite Hdir. }
  split; [exact Hdefault|]. intros Habs. subst path.
  rewrite Habs, Hdefault. done.
Qed.

Lemma container_paths_witness :
  ContainerConfig.get_config_path (ContainerConfig.__init__ ∅)
  = "./merlin_server/redis.conf"
  ∧ ContainerConfig.get_pfile_path
      (ContainerConfig.__init__ {[ "pfile" := "/run/merlin.pf" ]})
    = "/run/merlin.pf".
Proof.
  split.
  - exact (proj1 (container_paths ∅ "redis.conf") eq_refl).
  - exact (proj1 (proj2 (proj2 (container_paths {[ "pfile" := "/run/merlin.pf" ]}
                                  "/run/merlin.pf"))) eq_refl).
Defined.

End server_config.
